(** * Consumer referral API: dual-source resolution and failover

    A shallow embedding of the services of the repository
    (data-source router, Redis cache, RDS failover store, Trino bulk
    source, sync, Kafka consumer and its warning handler, parallel
    fetch, and the switch routes) together with the properties of the
    specification that concern them.

    Conventions.
    - Python values are [pyval]; a [dict] built by the code with string
      keys is a [gmap string pyval].
    - A [try ... except Exception] around a client call is modelled by a
      boolean [fault] saying whether the server failed the call; a
      sequence of calls consumes a list of such flags in call order (an
      empty list means the server fails no further call). A write to
      Redis also raises, whatever the server does, when the client
      refuses one of its values.
    - [time.time()] is a rational number of seconds (the rounding of
      floats is not modelled); [datetime.utcnow()] is an integer number
      of microseconds. *)

From Stdlib Require Import ZArith QArith Lqa String Ascii List Permutation.
From Stdlib Require Import DecimalString DecimalZ.
From stdpp Require Import base gmap strings list fin_maps.
Import ListNotations.

#[local] Set Warnings "-register-all".
#[local] Open Scope string_scope.
#[local] Open Scope list_scope.
#[local] Open Scope Z_scope.

(** ** Python values *)

Module Py.

Inductive pyval :=
| PNone
| PBool (b : bool)
| PInt (z : Z)
| PStr (s : string)
| PList (items : list pyval)
| PDict (fields : list (string * pyval)).

(** [bool(v)] *)
Definition truthy (v : pyval) : bool :=
  match v with
  | PNone => false
  | PBool b => b
  | PInt z => negb (z =? 0)
  | PStr s => negb (String.eqb s "")
  | PList l => match l with [] => false | _ => true end
  | PDict d => match d with [] => false | _ => true end
  end.

(** [a or b] *)
Definition py_or (a b : pyval) : pyval := if truthy a then a else b.

(** [str(z)] for an int *)
Definition str_of_Z (z : Z) : string := NilEmpty.string_of_int (Z.to_int z).

(** [needle in haystack] for two strings *)
Definition str_contains (needle haystack : string) : bool :=
  match String.index 0 needle haystack with
  | Some _ => true
  | None => false
  end.

(** [d.get(k)] on the fields of a dict: [None] of Python is [PNone]. *)
Fixpoint assoc (k : string) (d : list (string * pyval)) : option pyval :=
  match d with
  | [] => None
  | (k', v) :: d' => if String.eqb k k' then Some v else assoc k d'
  end.

(** [repr(s)] of a string: single quotes, unless the string holds a
    single quote and no double quote; the chosen quote and the backslash
    are escaped, tab, newline and carriage return are written with their
    letters and the other control characters as two hexadecimal digits.
    Bytes above 127 are kept (the printable characters of Python). *)
Definition single_quote : ascii := "'"%char.
Definition double_quote : ascii := ascii_of_nat 34.
Definition backslash : ascii := ascii_of_nat 92.

Fixpoint has_char (c : ascii) (s : string) : bool :=
  match s with
  | EmptyString => false
  | String a s' => Ascii.eqb a c || has_char c s'
  end.

Definition hex_digit (n : nat) : ascii :=
  match String.get n "0123456789abcdef" with
  | Some c => c
  | None => "0"%char
  end.

Definition repr_char (q c : ascii) : string :=
  let n := nat_of_ascii c in
  if Ascii.eqb c q || Ascii.eqb c backslash then String backslash (String c "")
  else if Nat.eqb n 9 then String backslash "t"
  else if Nat.eqb n 10 then String backslash "n"
  else if Nat.eqb n 13 then String backslash "r"
  else if Nat.ltb n 32 || Nat.eqb n 127 then
    String backslash
      (String "x"%char
         (String (hex_digit (Nat.div n 16))
            (String (hex_digit (Nat.modulo n 16)) "")))
  else String c "".

Fixpoint repr_chars (q : ascii) (s : string) : string :=
  match s with
  | EmptyString => ""
  | String c s' => (repr_char q c ++ repr_chars q s')%string
  end.

Definition repr_str (s : string) : string :=
  let q := if has_char single_quote s && negb (has_char double_quote s)
           then double_quote else single_quote in
  String q (repr_chars q s ++ String q "")%string.

(** [repr(v)] *)
Fixpoint py_repr (v : pyval) : string :=
  match v with
  | PNone => "None"
  | PBool true => "True"
  | PBool false => "False"
  | PInt z => str_of_Z z
  | PStr s => repr_str s
  | PList l =>
      ("[" ++ String.concat ", " (List.map py_repr l) ++ "]")%string
  | PDict d =>
      ("{" ++ String.concat ", "
                (List.map (fun kv => repr_str (fst kv) ++ ": " ++ py_repr (snd kv)) d)
           ++ "}")%string
  end.

(** [str(v)]: a string is itself, every other value is its [repr]. *)
Definition py_str (v : pyval) : string :=
  match v with
  | PStr s => s
  | _ => py_repr v
  end.

(** Outcome of a Python expression that may raise. *)
Inductive exc (A : Type) :=
| Raise (what : string)
| Return (a : A).
Arguments Raise {A} what.
Arguments Return {A} a.

Definition bind {A B} (m : exc A) (k : A → exc B) : exc B :=
  match m with
  | Raise e => Raise e
  | Return a => k a
  end.

(** [v.get(k, default)]: only a dict has [get]. *)
Definition get_default (v : pyval) (k : string) (default : pyval) : exc pyval :=
  match v with
  | PDict d => Return (match assoc k d with Some x => x | None => default end)
  | _ => Raise "AttributeError"
  end.

(** [k in v] for a string [k]. *)
Definition contains (k : string) (v : pyval) : exc bool :=
  match v with
  | PDict d => Return (match assoc k d with Some _ => true | None => false end)
  | PStr s => Return (str_contains k s)
  | PList l =>
      Return (existsb (fun x => match x with PStr s => String.eqb s k | _ => false end) l)
  | _ => Raise "TypeError"
  end.

(** Truth value of a dict: non-empty. *)
Definition dict_truthy {A} (d : gmap string A) : bool :=
  negb (Nat.eqb (size d) 0).

End Py.
Export Py.

Notation "'do' x '<~' m 'in' k" := (bind m (fun x => k))
(at level 10, x name, m at level 100, k at level 200, only parsing).

(** ** services/datasource_service.py *)

Module DataSourceService.

Inductive DataSource := LAKE | RDS.

Definition value (d : DataSource) : string :=
  match d with LAKE => "lake" | RDS => "rds" end.

Definition DataSource_eqb (a b : DataSource) : bool :=
  match a, b with
  | LAKE, LAKE | RDS, RDS => true
  | _, _ => false
  end.

(** [datetime.utcnow()], in microseconds. *)
Definition datetime := Z.

Record t := mk {
  current_source : DataSource;
  switch_timestamp : option datetime
}.

(** [__init__] *)
Definition init : t := mk LAKE None.

Definition is_lake_active (s : t) : bool := DataSource_eqb (current_source s) LAKE.
Definition is_rds_active (s : t) : bool := DataSource_eqb (current_source s) RDS.

(** The dict returned by a switch. *)
Inductive SwitchResult :=
| AlreadyActive (current : DataSource)
| Switched (previous current : DataSource) (switched_at : datetime).

Definition status (r : SwitchResult) : string :=
  match r with
  | AlreadyActive _ => "already_active"
  | Switched _ _ _ => "switched"
  end.

Definition switch_to_rds (now : datetime) (s : t) : SwitchResult * t :=
  if DataSource_eqb (current_source s) RDS then
    (AlreadyActive (current_source s), s)
  else
    let s' := mk RDS (Some now) in
    (Switched LAKE (current_source s') now, s').

Definition switch_to_lake (now : datetime) (s : t) : SwitchResult * t :=
  if DataSource_eqb (current_source s) LAKE then
    (AlreadyActive (current_source s), s)
  else
    let s' := mk LAKE (Some now) in
    (Switched RDS (current_source s') now, s').

(** The switch whose target is [d]. *)
Definition switch_to (d : DataSource) : datetime → t → SwitchResult * t :=
  match d with RDS => switch_to_rds | LAKE => switch_to_lake end.

Definition get_status (s : t) : DataSource * option datetime * bool * bool :=
  (current_source s, switch_timestamp s, is_lake_active s, is_rds_active s).

End DataSourceService.

(** ** services/redis_service.py *)

Module RedisService.

(** The two kinds of keys the service uses: the set [user_ids] and one
    hash per user under [user:<id>]. Members, fields and values are
    strings, as the server holds them and as the client, created with
    [decode_responses=True], returns them. *)
Record t := mk {
  user_ids : gset string;
  hashes : gmap string (gmap string string)
}.

Definition empty : t := mk ∅ ∅.

(** [f"user:{user_id}"] *)
Definition user_key (user_id : pyval) : string :=
  ("user:" ++ py_str user_id)%string.

(** [HGETALL]: the empty dict when the key is missing. *)
Definition hgetall (r : t) (key : string) : gmap string string :=
  default ∅ (hashes r !! key).

(** [user_data.get(k)] on the answer of [HGETALL]. *)
Definition dict_get (d : gmap string string) (k : string) : pyval :=
  match d !! k with
  | Some s => PStr s
  | None => PNone
  end.

(** What the client sends for a value of [hset(mapping=...)]: a [str]
    as it is and an [int] as its decimal digits; [None], a [bool] and a
    container are refused with [DataError] when the commands are packed. *)
Definition encode (v : pyval) : option string :=
  match v with
  | PStr s => Some s
  | PInt z => Some (str_of_Z z)
  | PNone | PBool _ | PList _ | PDict _ => None
  end.

(** [pipe.execute()] raises either because the server cannot be reached
    ([fault]) or because a value of the mapping is refused by the
    client; the transaction then writes nothing and the [except] clause
    returns [False]. *)
Definition add_user_data (fault : bool) (r : t)
    (user_id consumer_token platform device_id : pyval) : bool * t :=
  if fault then (false, r)
  else
    match encode consumer_token, encode platform, encode device_id with
    | Some token, Some plat, Some dev =>
        let key := user_key user_id in
        let user_data : gmap string string :=
          <["consumer_token" := token]>
            (<["platform" := plat]> (<["device_id" := dev]> ∅)) in
        (true,
         mk ({[ py_str user_id ]} ∪ user_ids r)
            (<[ key := user_data ∪ hgetall r key ]> (hashes r)))
    | _, _, _ => (false, r)
    end.

Definition get_user_data (fault : bool) (r : t) (user_id : Z)
    : option (gmap string pyval) :=
  if fault then None
  else
    let user_data := hgetall r (user_key (PInt user_id)) in
    if negb (dict_truthy user_data) then None
    else
      Some (<["user_id" := PInt user_id]>
             (<["consumer_token" := dict_get user_data "consumer_token"]>
               (<["platform" := dict_get user_data "platform"]>
                 (<["device_id" := dict_get user_data "device_id"]> ∅)))).

(** [SISMEMBER]; [False] when the call raises. *)
Definition user_exists (fault : bool) (r : t) (user_id : pyval) : bool :=
  if fault then false
  else bool_decide (py_str user_id ∈ user_ids r).

(** [SCARD]; [0] when the call raises. *)
Definition get_user_count (fault : bool) (r : t) : Z :=
  if fault then 0 else Z.of_nat (size (user_ids r)).

End RedisService.

(** ** services/rds_service.py *)

Module RDSService.

(** A row of the table, as selected by the query
    ([user_id, consumer_token, platform, device_id]). *)
Record Row := mkRow {
  row_user_id : Z;
  row_consumer_token : pyval;
  row_platform : pyval;
  row_device_id : pyval
}.

(** [WHERE user_id = %s LIMIT 1] then [fetchone()] *)
Definition fetchone (table : list Row) (user_id : Z) : option Row :=
  List.find (fun row => row_user_id row =? user_id) table.

(** [fault]: the cursor raises; the error is logged and re-raised. *)
Definition get_user_by_id (fault : bool) (table : list Row) (user_id : Z)
    : exc (option (gmap string pyval)) :=
  if fault then Raise "pymysql.Error"
  else
    match fetchone table user_id with
    | None => Return None
    | Some row =>
        Return (Some (<["user_id" := PInt (row_user_id row)]>
                       (<["platform" := py_or (row_platform row) (PStr "")]>
                         (<["device_id" := py_or (row_device_id row) (PStr "")]> ∅))))
    end.

End RDSService.

(** ** services/trino_service.py *)

Module TrinoService.

(** A row of the cursor: [(row[0], row[1], row[2], row[3])]. *)
Definition Row : Type := pyval * pyval * pyval * pyval.

Definition user_of_row (row : Row) : gmap string pyval :=
  let '(c0, c1, c2, c3) := row in
  <["user_id" := c0]>
    (<["consumer_token" := c1]>
      (<["platform" := c2]> (<["device_id" := c3]> ∅))).

(** [scan] is what [cursor.execute; cursor.fetchall] does: [None] when
    it raises (also when there is no connection), in which case the
    error is logged and the empty list returned. *)
Definition fetch_all_users (scan : option (list Row)) : list (gmap string pyval) :=
  match scan with
  | None => []
  | Some rows => List.map user_of_row rows
  end.

End TrinoService.

(** ** services/sync_service.py *)

Module SyncService.

(** The next flag of a fault schedule; no fault once it is exhausted. *)
Definition next_fault (faults : list bool) : bool * list bool :=
  match faults with
  | [] => (false, [])
  | f :: fs => (f, fs)
  end.

(** [user.get(k, default)] *)
Definition get_or (user : gmap string pyval) (k : string) (d : pyval) : pyval :=
  default d (user !! k).

(** What the function logs before it returns [None]. *)
Inductive SyncReport :=
| NoUsersFetched
| Completed (added skipped final_count : Z).

Record LoopState := mkLoop {
  redis : RedisService.t;
  faults : list bool;
  added_count : Z;
  skipped_count : Z
}.

(** One iteration of [for user in users]. *)
Definition sync_user (st : LoopState) (user : gmap string pyval) : LoopState :=
  let user_id := get_or user "user_id" PNone in
  let '(f1, fs1) := next_fault (faults st) in
  if negb (RedisService.user_exists f1 (redis st) user_id) then
    let '(f2, fs2) := next_fault fs1 in
    let '(_, r') :=
      RedisService.add_user_data f2 (redis st) user_id
        (get_or user "consumer_token" (PStr ""))
        (get_or user "platform" (PStr ""))
        (get_or user "device_id" (PStr "")) in
    mkLoop r' fs2 (added_count st + 1) (skipped_count st)
  else
    mkLoop (redis st) fs1 (added_count st) (skipped_count st + 1).

Definition sync_users (users : list (gmap string pyval)) (st : LoopState) : LoopState :=
  List.fold_left sync_user users st.

(** [initial_sync]: [scan] is the outcome of the Trino cursor, [fs] the
    fault schedule of the Redis calls. Returns what is raised or
    logged, the Redis state and the rest of the schedule. *)
Definition initial_sync (scan : option (list TrinoService.Row)) (fs : list bool)
    (r : RedisService.t) : exc SyncReport * RedisService.t * list bool :=
  let '(f0, fs0) := next_fault fs in
  let current_count := RedisService.get_user_count f0 r in
  let users := TrinoService.fetch_all_users scan in
  match users with
  | [] => (Return NoUsersFetched, r, fs0)
  | _ =>
      let st := sync_users users (mkLoop r fs0 0 0) in
      let '(f1, fs1) := next_fault (faults st) in
      let final_count := RedisService.get_user_count f1 (redis st) in
      (Return (Completed (added_count st) (skipped_count st) final_count),
       redis st, fs1)
  end.

End SyncService.

(** ** services/kafka_service.py *)

Module KafkaService.

Import SyncService (next_fault).

(** A [logging.LogRecord]: its level and its formatted message. *)
Record LogRecord := mkRecord {
  levelno : Z;
  message : string
}.

(** [logging.WARNING] *)
Definition WARNING : Z := 30.

Definition keywords : list string :=
  [ "NodeNotReadyError"; "coordinator"; "Heartbeat session expired";
    "connection failed"; "timed out"; "RequestTimedOutError" ].

(** [any(keyword in message for keyword in [...])] *)
Definition coordinator_related (msg : string) : bool :=
  existsb (fun keyword => str_contains keyword msg) keywords.

(** [a > b] on timestamps *)
Definition Qgtb (a b : Q) : bool := negb (Qle_bool a b).

(** [KafkaCoordinatorWarningHandler] *)
Record WarningHandler := mkHandler {
  warning_count : Z;
  last_warning_time : Q;
  warning_window : Z;
  warning_threshold : Z
}.

Definition new_handler : WarningHandler := mkHandler 0 (0 # 1) 30 10.

(** [KafkaService]: [consumer] says whether [self.consumer] is not [None]. *)
Record t := mk {
  consumer : bool;
  running : bool;
  consecutive_errors : Z;
  max_consecutive_errors : Z;
  warning_handler : option WarningHandler;
  failover_triggered : bool
}.

(** [__init__] *)
Definition init : t := mk false false 0 3 None false.

Definition set_errors (n : Z) (k : t) : t :=
  mk (consumer k) (running k) n (max_consecutive_errors k)
     (warning_handler k) (failover_triggered k).

Definition set_running (b : bool) (k : t) : t :=
  mk (consumer k) b (consecutive_errors k) (max_consecutive_errors k)
     (warning_handler k) (failover_triggered k).

Definition set_handler (h : option WarningHandler) (k : t) : t :=
  mk (consumer k) (running k) (consecutive_errors k) (max_consecutive_errors k)
     h (failover_triggered k).

(** [KafkaCoordinatorWarningHandler.emit]; [current_time] is what
    [time.time()] returns. The handler [h] and the service [k] are the
    two objects the method updates. *)
Definition emit (record : LogRecord) (current_time : Q)
    (h : WarningHandler) (k : t) : WarningHandler * t :=
  if levelno record >=? WARNING then
    if coordinator_related (message record) then
      let count0 :=
        if Qgtb (current_time - last_warning_time h) (inject_Z (warning_window h))
        then 0 else warning_count h in
      let count1 := count0 + 1 in
      if count1 >=? warning_threshold h then
        (mkHandler 0 current_time (warning_window h) (warning_threshold h),
         set_errors (max_consecutive_errors k) k)
      else
        (mkHandler count1 current_time (warning_window h) (warning_threshold h), k)
    else (h, k)
  else (h, k).

(** A run of log records, each with the time at which it is handled. *)
Definition emit_all (records : list (LogRecord * Q))
    (hk : WarningHandler * t) : WarningHandler * t :=
  List.fold_left (fun hk rt => emit (fst rt) (snd rt) (fst hk) (snd hk)) records hk.

(** A record logged on the [kafka] logger reaches the handler the
    service has installed, if any. *)
Definition log_record (record : LogRecord) (current_time : Q) (k : t) : t :=
  match warning_handler k with
  | None => k
  | Some h =>
      let '(h', k') := emit record current_time h k in
      set_handler (Some h') k'
  end.

Definition _setup_warning_handler (k : t) : t :=
  match warning_handler k with
  | None => set_handler (Some new_handler) k
  | Some _ => k
  end.

(** [connect]: [ok] says whether [KafkaConsumer(...)] succeeds. *)
Definition connect (ok : bool) (k : t) : exc unit * t :=
  if ok then
    (Return tt,
     _setup_warning_handler
       (mk true (running k) 0 (max_consecutive_errors k) (warning_handler k) false))
  else (Raise "KafkaError", k).

Definition disconnect (k : t) : t :=
  mk (consumer k) false (consecutive_errors k) (max_consecutive_errors k)
     None (failover_triggered k).

(** [process_message]: [value] is [message.value], [fs] the fault
    schedule of the Redis calls. *)
Definition process_message (fs : list bool) (value : pyval)
    (k : t) (r : RedisService.t) : t * RedisService.t * list bool :=
  match value with
  | PNone => (k, r, fs)
  | _ =>
      match
        (do payload <~ get_default value "payload" (PDict []) in
         do after_data <~ get_default payload "after" PNone in
         do has_id <~ (if truthy after_data then contains "user_id" after_data
                       else Return false) in
         if has_id then
           do user_id <~ get_default after_data "user_id" PNone in
           do consumer_token <~ get_default after_data "consumer_token" (PStr "") in
           do platform <~ get_default after_data "platform" (PStr "") in
           do device_id <~ get_default after_data "device_id" (PStr "") in
           let '(f1, fs1) := next_fault fs in
           if negb (RedisService.user_exists f1 r user_id) then
             let '(f2, fs2) := next_fault fs1 in
             Return
               (snd (RedisService.add_user_data f2 r user_id
                       consumer_token platform device_id), fs2)
           else Return (r, fs1)
         else Return (r, fs))
      with
      | Return (r', fs') => (set_errors 0 k, r', fs')
      | Raise _ => (set_errors (consecutive_errors k + 1) k, r, fs)
      end
  end.

(** The inner loop of [consume_messages]:
    [for message in self.consumer: if not self.running: break; ...]. *)
Fixpoint consume_batch (fs : list bool) (values : list pyval)
    (k : t) (r : RedisService.t) : t * RedisService.t * list bool :=
  match values with
  | [] => (k, r, fs)
  | value :: rest =>
      if negb (running k) then (k, r, fs)
      else
        let '(k', r', fs') := process_message fs value k r in
        consume_batch fs' rest k' r'
  end.

Definition start_consuming (k : t) : t :=
  if negb (running k) then
    mk (consumer k) true 0 (max_consecutive_errors k) (warning_handler k) false
  else k.

Definition stop_consuming (k : t) : t :=
  if running k then set_running false k else k.

Definition health_check (k : t) : bool :=
  consumer k
  && running k
  && (consecutive_errors k <? max_consecutive_errors k)
  && negb (failover_triggered k).

End KafkaService.

(** ** services/parallel_fetch_service.py *)

Module ParallelFetchService.

(** [if result:] on an optional dict *)
Definition result_truthy (result : option (gmap string pyval)) : bool :=
  match result with
  | None => false
  | Some d => dict_truthy d
  end.

(** [if result: result['source'] = src] then [return result] *)
Definition tag_source (src : string) (result : option (gmap string pyval))
    : option (gmap string pyval) :=
  match result with
  | Some d => if dict_truthy d then Some (<["source" := PStr src]> d) else Some d
  | None => None
  end.

Definition fetch_user_from_redis (fault : bool) (r : RedisService.t) (user_id : Z)
    : option (gmap string pyval) :=
  tag_source "redis" (RedisService.get_user_data fault r user_id).

Definition fetch_user_from_rds (fault : bool) (table : list RDSService.Row)
    (user_id : Z) : option (gmap string pyval) :=
  match RDSService.get_user_by_id fault table user_id with
  | Return result => tag_source "rds" result
  | Raise _ => None
  end.

(** How the two tasks of one race complete, as [asyncio.wait] and
    [asyncio.wait_for] observe it: which task is in [done] when the
    first wait returns (both, when they finish together, iterated in
    one of the two orders), and whether the task left in [pending]
    finishes within the 2 s fallback timeout. *)
Inductive Schedule :=
| RedisFirst (rds_in_time : bool)
| RdsFirst (redis_in_time : bool)
| BothDone (redis_iterated_first : bool).

(** The calls of one race: the schedule and whether each lookup raises. *)
Record Race := mkRace {
  schedule : Schedule;
  redis_fault : bool;
  rds_fault : bool
}.

(** [for task in done: result = task.result(); if result: ...; break] *)
Fixpoint first_done (done : list (option (gmap string pyval)))
    : option (gmap string pyval) :=
  match done with
  | [] => None
  | result :: rest => if result_truthy result then result else first_done rest
  end.

(** [for task in pending: try: result = await wait_for(task, 2.0) ...]:
    an entry is [None] when the wait times out. *)
Fixpoint first_pending (pending : list (option (option (gmap string pyval))))
    : option (gmap string pyval) :=
  match pending with
  | [] => None
  | None :: rest => first_pending rest
  | Some result :: rest =>
      if result_truthy result then result else first_pending rest
  end.

Definition fetch_user_parallel (race : Race) (r : RedisService.t)
    (table : list RDSService.Row) (user_id : Z) : option (gmap string pyval) :=
  let redis_task := fetch_user_from_redis (redis_fault race) r user_id in
  let rds_task := fetch_user_from_rds (rds_fault race) table user_id in
  let '(done, pending) :=
    match schedule race with
    | RedisFirst in_time =>
        ([redis_task], [if in_time then Some rds_task else None])
    | RdsFirst in_time =>
        ([rds_task], [if in_time then Some redis_task else None])
    | BothDone true => ([redis_task; rds_task], [])
    | BothDone false => ([rds_task; redis_task], [])
    end in
  let first_result := first_done done in
  if negb (result_truthy first_result) then first_pending pending
  else first_result.

Record BatchResult := mkBatch {
  users : list (gmap string pyval);
  total : Z;
  not_found : list Z
}.

(** The loop over [zip(user_ids, results)]; an entry of [results] is
    what [gather(..., return_exceptions=True)] holds for one task. *)
Definition classify (acc : list (gmap string pyval) * list Z)
    (item : Z * exc (option (gmap string pyval)))
    : list (gmap string pyval) * list Z :=
  let '(found_users, not_found) := acc in
  let '(user_id, result) := item in
  match result with
  | Raise _ => (found_users, not_found ++ [user_id])
  | Return res =>
      match res with
      | Some d =>
          if dict_truthy d then (found_users ++ [d], not_found)
          else (found_users, not_found ++ [user_id])
      | None => (found_users, not_found ++ [user_id])
      end
  end.

(** [task i user_id] is the outcome of the [i]-th task of the batch. *)
Definition fetch_multiple_users_parallel
    (task : nat → Z → exc (option (gmap string pyval)))
    (user_ids : list Z) : exc BatchResult :=
  let results := imap task user_ids in
  let '(found_users, not_found) :=
    List.fold_left classify (List.combine user_ids results) ([], []) in
  Return (mkBatch found_users (Z.of_nat (length found_users)) not_found).

(** The tasks the service creates: one race per id. *)
Definition race_task (races : nat → Race) (r : RedisService.t)
    (table : list RDSService.Row) (i : nat) (user_id : Z)
    : exc (option (gmap string pyval)) :=
  Return (fetch_user_parallel (races i) r table user_id).

End ParallelFetchService.

(** ** routes/user_route.py: the two switch endpoints *)

Module UserRoute.

Import DataSourceService.

(** What the collaborators do during one request. *)
Record Env := mkEnv {
  now : datetime;
  rds_healthy : bool;
  rds_connect_ok : bool;
  trino_healthy : bool;
  trino_connect_ok : bool;
  scan : option (list TrinoService.Row);
  redis_faults : list bool;
  kafka_connect_ok : bool
}.

(** The singletons the handlers share. *)
Record World := mkWorld {
  datasource : DataSourceService.t;
  kafka : KafkaService.t;
  redis : RedisService.t
}.

Inductive Response :=
| OK (result : SwitchResult)
| HTTPException (status_code : Z) (detail : string).

Definition switch_to_rds (env : Env) (w : World) : Response * World :=
  let k := KafkaService.stop_consuming (kafka w) in
  if negb (rds_healthy env) && negb (rds_connect_ok env) then
    (HTTPException 500 "Failed to switch to RDS",
     mkWorld (datasource w) k (redis w))
  else
    let '(result, ds) := DataSourceService.switch_to_rds (now env) (datasource w) in
    (OK result, mkWorld ds k (redis w)).

Definition switch_to_lake (env : Env) (w : World) : Response * World :=
  if negb (trino_healthy env) && negb (trino_connect_ok env) then
    (HTTPException 500 "Failed to switch to Lake", w)
  else
    let '(synced, r, _) :=
      SyncService.initial_sync (scan env) (redis_faults env) (redis w) in
    match synced with
    | Raise _ =>
        (HTTPException 500 "Failed to switch to Lake",
         mkWorld (datasource w) (kafka w) r)
    | Return _ =>
        let connected :=
          if negb (KafkaService.health_check (kafka w))
          then KafkaService.connect (kafka_connect_ok env) (kafka w)
          else (Return tt, kafka w) in
        match connected with
        | (Raise _, k) =>
            (HTTPException 500 "Failed to switch to Lake",
             mkWorld (datasource w) k r)
        | (Return _, k) =>
            let k' := KafkaService.start_consuming k in
            let '(result, ds) :=
              DataSourceService.switch_to_lake (now env) (datasource w) in
            (OK result, mkWorld ds k' r)
        end
    end.

Inductive Request := SwitchRds | SwitchLake.

Definition target (q : Request) : DataSource :=
  match q with SwitchRds => RDS | SwitchLake => LAKE end.

Definition handle (q : Request) : Env → World → Response * World :=
  match q with
  | SwitchRds => switch_to_rds
  | SwitchLake => switch_to_lake
  end.

(** The handlers are coroutines without an [await]: the event loop
    runs each pending request to completion before the next one. *)
Fixpoint serve (pending : list (Request * Env)) (w : World)
    : list Response * World :=
  match pending with
  | [] => ([], w)
  | (q, env) :: rest =>
      let '(resp, w1) := handle q env w in
      let '(resps, w2) := serve rest w1 in
      (resp :: resps, w2)
  end.

End UserRoute.

(** ** services/kafka_service.py: the consumer loop *)

Module ConsumeLoop.

Import KafkaService.

(** What one pass over [self.consumer] yields: the values of the
    messages it delivers, whether it then raises ([KafkaError] or any
    other exception) instead of ending on the poll timeout, and the
    fault schedule of the Redis calls made while processing. *)
Record Poll := mkPoll {
  values : list pyval;
  raises : bool;
  faults : list bool
}.

Definition max_no_message_iterations : Z := 3.

(** [for message in self.consumer: if not self.running: break; ...]:
    returns whether the loop was left by [break], [messages_received]
    and [no_message_count]. *)
Fixpoint for_messages (fs : list bool) (vals : list pyval)
    (messages_received : bool) (no_message_count : Z)
    (k : t) (r : RedisService.t)
    : bool * bool * Z * t * RedisService.t :=
  match vals with
  | [] => (false, messages_received, no_message_count, k, r)
  | value :: rest =>
      if negb (running k) then (true, messages_received, no_message_count, k, r)
      else
        let '(k', r', fs') := process_message fs value k r in
        for_messages fs' rest true 0 k' r'
  end.

(** The body of [while self.running], up to the check that ends the loop. *)
Definition iteration (p : Poll) (no_message_count : Z) (k : t) (r : RedisService.t)
    : Z * t * RedisService.t :=
  let '(broke, messages_received, count, k1, r1) :=
    for_messages (faults p) (values p) false no_message_count k r in
  if raises p && negb broke then
    (count, set_errors (consecutive_errors k1 + 1) k1, r1)
  else if negb messages_received then
    let count' := count + 1 in
    if (count' >=? max_no_message_iterations) && (consecutive_errors k1 >? 0) then
      (count', set_errors (consecutive_errors k1 + 1) k1, r1)
    else (count', k1, r1)
  else (count, k1, r1).

(** How the loop stands after the polls given to it. *)
Inductive Exit :=
| Stopped    (* [while self.running] found the flag cleared *)
| Broke      (* [consecutive_errors >= max_consecutive_errors]: [break] *)
| Polling.   (* the loop goes on with the next poll *)

Fixpoint consume_loop (polls : list Poll) (no_message_count : Z)
    (k : t) (r : RedisService.t) : Exit * Z * t * RedisService.t :=
  match polls with
  | [] => (if running k then Polling else Stopped, no_message_count, k, r)
  | p :: rest =>
      if negb (running k) then (Stopped, no_message_count, k, r)
      else
        let '(count, k', r') := iteration p no_message_count k r in
        if consecutive_errors k' >=? max_consecutive_errors k' then
          (Broke, count, k', r')
        else consume_loop rest count k' r'
  end.

(** [consume_messages] over the polls the consumer makes. *)
Definition consume_messages (polls : list Poll) (k : t) (r : RedisService.t)
    : Exit * Z * t * RedisService.t :=
  consume_loop polls 0 k r.

End ConsumeLoop.

(** ** services/auth.py, decorators/auth.py, routes/auth_route.py *)

Module Auth.

(** The hashes of the Redis database the token store talks to
    ([decode_responses=True]: fields and values are strings). *)
Abbreviation db := (gmap string (gmap string string)).

Inductive error :=
| HTTPException (status_code : Z) (detail : string)
| ValueError (msg : string)
| OtherError (what : string).

Inductive outcome (A : Type) :=
| Raised (e : error)
| Returned (a : A).
Arguments Raised {A} e.
Arguments Returned {A} a.

(** A [TokenStore]: its prefixes and whether [self.redis] is set. *)
Record TokenStore := mkStore {
  prefix : string;
  user_prefix : string;
  redis : bool
}.

(** [TokenStore()] *)
Definition new_store : TokenStore := mkStore "api_token:" "user:" false.

(** [connect]: [from_url] builds the client without contacting the server. *)
Definition connect (ts : TokenStore) : TokenStore :=
  mkStore (prefix ts) (user_prefix ts) true.

Definition hgetall (d : db) (key : string) : gmap string string :=
  default ∅ (d !! key).

(** [if data:] on a dict of strings *)
Definition nonempty (h : gmap string string) : bool := negb (Nat.eqb (size h) 0).

(** [HSET key mapping] *)
Definition hset (d : db) (key : string) (mapping : gmap string string) : db :=
  <[ key := mapping ∪ hgetall d key ]> d.

(** [int(x)] of a float: truncation towards zero. *)
Definition int_of_time (now : Q) : Z := Z.quot (Qnum now) (Z.pos (Qden now)).

(** [authorization.split(" ", 1)] *)
Fixpoint split_first_space (s : string) : list string :=
  match s with
  | EmptyString => [EmptyString]
  | String c rest =>
      if Ascii.eqb c " "%char then [EmptyString; rest]
      else
        match split_first_space rest with
        | head :: tail => String c head :: tail
        | [] => [String c EmptyString]
        end
  end.

Section Helpers.

(** [helpers.auth.password_handler] is not part of the sources, and
    [str.lower] is a built-in: the three are parameters. *)
Variable hash_password : string → string.
Variable verify_password : string → string → bool.
Variable lower : string → string.

(** [f1], [f2]: whether the first and the second Redis call raise. *)
Definition register_user (f1 f2 : bool) (ts : TokenStore) (d : db)
    (email password : string) : outcome (gmap string string) * TokenStore * db :=
  let ts := connect ts in
  let key := (user_prefix ts ++ "_" ++ lower email)%string in
  if f1 then (Raised (OtherError "redis"), ts, d)
  else if nonempty (hgetall d key) then
    (Raised (HTTPException 400 "User already exists"), ts, d)
  else
    let hashed := hash_password password in
    if f2 then (Raised (OtherError "redis"), ts, d)
    else
      (Returned (<["email" := email]>
                  (<["message" := "User registered successfully"]> ∅)),
       ts,
       hset d key (<["email" := email]> (<["password" := hashed]> ∅))).

(** [token] is what [secrets.token_urlsafe(32)] draws, [now] what
    [time.time()] returns. *)
Definition generate_token (f1 f2 : bool) (ts : TokenStore) (d : db)
    (email password token : string) (now : Q) : outcome string * TokenStore * db :=
  let ts := connect ts in
  let user_key := (user_prefix ts ++ "_" ++ lower email)%string in
  if f1 then (Raised (OtherError "redis"), ts, d)
  else
    let user_data := hgetall d user_key in
    if negb (nonempty user_data) then (Raised (ValueError "User not found"), ts, d)
    else if negb (verify_password password (default "" (user_data !! "password"))) then
      (Raised (ValueError "Invalid credentials"), ts, d)
    else
      let token_key := (prefix ts ++ "_" ++ token)%string in
      if f2 then (Raised (OtherError "redis"), ts, d)
      else
        (Returned token, ts,
         hset d token_key
           (<["email" := email]>
             (<["created_at" := str_of_Z (int_of_time now)]> ∅))).

Definition validate_token (f : bool) (ts : TokenStore) (d : db) (token : string)
    : outcome (option (gmap string string)) * TokenStore :=
  let ts := connect ts in
  let key := (prefix ts ++ "_" ++ token)%string in
  if f then (Raised (OtherError "redis"), ts)
  else
    let data := hgetall d key in
    (Returned (if nonempty data then Some data else None), ts).

(** [revoke_token] does not connect: without a client the attribute
    access fails. *)
Definition revoke_token (f : bool) (ts : TokenStore) (d : db) (token : string)
    : outcome unit * db :=
  if negb (redis ts) then (Raised (OtherError "AttributeError"), d)
  else if f then (Raised (OtherError "redis"), d)
  else (Returned tt, delete (prefix ts ++ token)%string d).

(** [decorators/auth.py]: [token_store] is the injected store. *)
Definition cog_auth_required (f : bool) (token_store : TokenStore) (d : db)
    (authorization : string) : outcome bool :=
  match split_first_space authorization with
  | [scheme; token] =>
      if negb (String.eqb scheme "cog-api-token") then
        Raised (HTTPException 401 "Invalid or missing API key")
      else
        match validate_token f token_store d token with
        | (Raised e, _) => Raised e
        | (Returned data, _) =>
            match data with
            | Some _ => Returned true
            | None => Raised (HTTPException 401 "Invalid or missing cog-api-token")
            end
        end
  | _ => Raised (HTTPException 401 "Invalid or missing Authorization header")
  end.

(** [routes/auth_route.py]: each handler gets [TokenStore()] from
    [get_token_store]. *)
Definition register_route (f1 f2 : bool) (d : db) (email password : string)
    : outcome (gmap string string) * db :=
  match register_user f1 f2 new_store d email password with
  | (Returned result, _, d') => (Returned result, d')
  | (Raised (HTTPException c m), _, d') => (Raised (HTTPException c m), d')
  | (Raised _, _, d') => (Raised (HTTPException 500 "Registration failed"), d')
  end.

Definition login_route (f1 f2 : bool) (d : db)
    (email password token : string) (now : Q) : outcome string * db :=
  match generate_token f1 f2 new_store d email password token now with
  | (Returned token, _, d') => (Returned token, d')
  | (Raised (ValueError m), _, d') => (Raised (HTTPException 401 m), d')
  | (Raised _, _, d') => (Raised (HTTPException 500 "Login failed"), d')
  end.

Definition revoke_route (f : bool) (d : db) (token : string) : outcome string * db :=
  match revoke_token f new_store d token with
  | (Returned _, d') => (Returned "Token revoked successfully", d')
  | (Raised _, d') => (Raised (HTTPException 500 "Token revocation failed"), d')
  end.

End Helpers.

End Auth.

(** ** routes/user_route.py: the existence endpoint *)

Module CheckUser.

(** [user_ids.split(',')] *)
Fixpoint split_comma (s : string) : list string :=
  match s with
  | EmptyString => [EmptyString]
  | String c rest =>
      if Ascii.eqb c ","%char then EmptyString :: split_comma rest
      else
        match split_comma rest with
        | head :: tail => String c head :: tail
        | [] => [String c EmptyString]
        end
  end.

Inductive Response :=
| OK (results : list (Z * bool))
| HTTPException (status_code : Z) (detail : string).

Section Builtins.

(** The built-ins [str.strip] and [int]: [None] is a [ValueError]. *)
Variable strip : string → string.
Variable int : string → option Z.

(** [for uid in user_id_list]: the results so far, the fault schedule
    of the Redis calls and the ids left. *)
Fixpoint check_each (fs : list bool) (r : RedisService.t)
    (user_id_list : list string) (results : list (Z * bool)) : Response :=
  match user_id_list with
  | [] => OK results
  | uid :: rest =>
      if String.eqb uid "" then
        HTTPException 400 "Empty user_id found in comma-separated list"
      else
        match int uid with
        | None => HTTPException 400 ("Invalid user_id: " ++ uid ++ ". Must be numeric.")
        | Some user_id_int =>
            let '(f, fs') := SyncService.next_fault fs in
            let exists_ := RedisService.user_exists f r (PInt user_id_int) in
            check_each fs' r rest (results ++ [(user_id_int, exists_)])
        end
  end.

Definition check_user_exists_get (fs : list bool) (r : RedisService.t)
    (user_ids : string) : Response :=
  if String.eqb user_ids "" || String.eqb (strip user_ids) "" then
    HTTPException 400 "user_ids cannot be empty"
  else
    let user_id_list := List.map strip (split_comma user_ids) in
    check_each fs r user_id_list [].

End Builtins.

End CheckUser.

(** ** Vocabulary of the specification *)

(** The cache holds a record for the id: its hash is not empty. *)
Definition redis_has (r : RedisService.t) (user_id : Z) : bool :=
  dict_truthy (RedisService.hgetall r (RedisService.user_key (PInt user_id))).

(** The failover table holds a row for the id. *)
Definition rds_has (table : list RDSService.Row) (user_id : Z) : bool :=
  match RDSService.fetchone table user_id with Some _ => true | None => false end.

(** The cache lookup reaches the caller: it does not raise, and it is
    not the task abandoned by the fallback timeout. *)
Definition redis_answers (race : ParallelFetchService.Race) : bool :=
  negb (ParallelFetchService.redis_fault race)
  && match ParallelFetchService.schedule race with ParallelFetchService.RdsFirst in_time => in_time | _ => true end.

(** The same for the lookup in the failover store. *)
Definition rds_answers (race : ParallelFetchService.Race) : bool :=
  negb (ParallelFetchService.rds_fault race)
  && match ParallelFetchService.schedule race with ParallelFetchService.RedisFirst in_time => in_time | _ => true end.

(** The record an entry of the batch contributes to [users], if any. *)
Definition found_of (item : Z * exc (option (gmap string pyval)))
    : option (gmap string pyval) :=
  match snd item with
  | Return (Some d) => if dict_truthy d then Some d else None
  | _ => None
  end.

(** The id an entry of the batch contributes to [not_found], if any. *)
Definition missed_of (item : Z * exc (option (gmap string pyval))) : option Z :=
  match found_of item with
  | Some _ => None
  | None => Some (fst item)
  end.

(** The id a returned record carries. *)
Definition record_id (d : gmap string pyval) : option pyval := d !! "user_id".

(** The server fails no Redis call of the schedule. *)
Definition no_faults (fs : list bool) : Prop := ∀ f, f ∈ fs → f = false.

(** The store [r'] keeps every member, every hash and every field of a
    hash that [r] has. *)
Definition keeps_entries (r r' : RedisService.t) : Prop :=
  RedisService.user_ids r ⊆ RedisService.user_ids r'
  ∧ ∀ key (h : gmap string string),
      RedisService.hashes r !! key = Some h →
      ∃ h', RedisService.hashes r' !! key = Some h' ∧ dom h ⊆ dom h'.

(** The Redis client accepts the value as a field of a hash. *)
Definition storable (v : pyval) : bool :=
  match RedisService.encode v with
  | Some _ => true
  | None => false
  end.

(** The fields of a scanned row are values the client accepts, so that
    the write of the row does not raise on a reachable server. *)
Definition storable_row (row : TrinoService.Row) : Prop :=
  let '(_, c1, c2, c3) := row in
  storable c1 = true ∧ storable c2 = true ∧ storable c3 = true.

(** The same for a record of the sync loop. *)
Definition storable_user (user : gmap string pyval) : Prop :=
  storable (SyncService.get_or user "consumer_token" (PStr "")) = true
  ∧ storable (SyncService.get_or user "platform" (PStr "")) = true
  ∧ storable (SyncService.get_or user "device_id" (PStr "")) = true.

(** What is read back for a field written as [v]: the string stored. *)
Definition stored (v : pyval) : pyval :=
  match RedisService.encode v with
  | Some s => PStr s
  | None => PNone
  end.

(** [exists(id)] evaluated on the store by a call that does not raise. *)
Definition cache_exists (r : RedisService.t) (user_id : pyval) : bool :=
  RedisService.user_exists false r user_id.

(** The id of a scanned row: its first column. *)
Definition row_id (row : TrinoService.Row) : pyval :=
  let '(c0, _, _, _) := row in c0.

(** No write of the sync can be refused by the client: every row has
    fields it accepts, or an id that is in the store already (the row is
    then skipped). *)
Definition writes_accepted (r : RedisService.t) (rows : list TrinoService.Row) : Prop :=
  ∀ row, row ∈ rows → storable_row row ∨ cache_exists r (row_id row) = true.

(** A record the warning handler counts: a warning or worse whose
    message names one of the connectivity failures. *)
Definition matching (record : KafkaService.LogRecord) : bool :=
  (KafkaService.levelno record >=? KafkaService.WARNING)
  && KafkaService.coordinator_related (KafkaService.message record).

Definition all_matching (records : list (KafkaService.LogRecord * Q)) : bool :=
  forallb (λ rt, matching rt.1) records.

(** The times lie within one window of 30 s: no two are further apart. *)
Definition within_window (times : list Q) : bool :=
  forallb (λ t, forallb (λ t', Qle_bool (t' - t) (inject_Z 30)) times) times.

(** The handler as [__init__] configures it, with a count below the
    threshold (the count is reset whenever it reaches it). *)
Definition handler_ok (h : KafkaService.WarningHandler) : Prop :=
  KafkaService.warning_window h = 30
  ∧ KafkaService.warning_threshold h = 10
  ∧ 0 ≤ KafkaService.warning_count h < 10.

(** Each time is at most 30 s after the one before it. *)
Fixpoint no_gap (previous : Q) (times : list Q) : Prop :=
  match times with
  | [] => True
  | now :: rest =>
      KafkaService.Qgtb (now - previous) (inject_Z 30) = false ∧ no_gap now rest
  end.

(** Every connection a switch may have to open can be opened. *)
Definition env_ok (env : UserRoute.Env) : bool :=
  (UserRoute.rds_healthy env || UserRoute.rds_connect_ok env)
  && (UserRoute.trino_healthy env || UserRoute.trino_connect_ok env)
  && UserRoute.kafka_connect_ok env.

(** The states of the consumer service the application produces: it
    starts the loop only after [connect] returned or the health check
    answered [True] (the startup hook and the switch to the lake), so
    only in a state that has a consumer. *)
Inductive app_reachable : KafkaService.t → Prop :=
| reach_init : app_reachable KafkaService.init
| reach_connect ok k :
    app_reachable k → app_reachable (KafkaService.connect ok k).2
| reach_start k :
    app_reachable k → KafkaService.consumer k = true →
    app_reachable (KafkaService.start_consuming k)
| reach_stop k :
    app_reachable k → app_reachable (KafkaService.stop_consuming k)
| reach_disconnect k :
    app_reachable k → app_reachable (KafkaService.disconnect k)
| reach_process fs value k r :
    app_reachable k →
    app_reachable (KafkaService.process_message fs value k r).1.1
| reach_log record now k :
    app_reachable k → app_reachable (KafkaService.log_record record now k).

(** The set of ids and the hashes agree: a string is a member exactly
    when the hash under its key is not empty. *)
Definition cache_consistent (r : RedisService.t) : Prop :=
  ∀ s : string,
    s ∈ RedisService.user_ids r
    ↔ dict_truthy (RedisService.hgetall r ("user:" ++ s)%string) = true.

(** The record [get_user_data] builds for an id from stored fields. *)
Definition user_record (user_id : Z) (consumer_token platform device_id : pyval)
    : gmap string pyval :=
  <["user_id" := PInt user_id]>
    (<["consumer_token" := consumer_token]>
      (<["platform" := platform]> (<["device_id" := device_id]> ∅))).

(** The row image of a change event the consumer stores: the [after]
    dict of the payload, when it has a [user_id]. *)
Definition event_row (value : pyval) : option (list (string * pyval)) :=
  match value with
  | PDict v =>
      match default (PDict []) (assoc "payload" v) with
      | PDict p =>
          match assoc "after" p with
          | Some (PDict a) =>
              match assoc "user_id" a with
              | Some _ => Some a
              | None => None
              end
          | _ => None
          end
      | _ => None
      end
  | _ => None
  end.

(** [after_data.get(k, default)] on the row image. *)
Definition row_get (row : list (string * pyval)) (k : string) (d : pyval) : pyval :=
  default d (assoc k row).

(** Whether the cache is the store whose answer the race looks at first. *)
Definition redis_wins (race : ParallelFetchService.Race) : bool :=
  match ParallelFetchService.schedule race with
  | ParallelFetchService.RedisFirst _ => true
  | ParallelFetchService.BothDone first => first
  | ParallelFetchService.RdsFirst _ => false
  end.

(** A run of switches of the router, each with its target and time. *)
Definition run_switches (requests : list (DataSourceService.DataSource * Z))
    (s : DataSourceService.t) : DataSourceService.t :=
  fold_left (λ s q, (DataSourceService.switch_to q.1 q.2 s).2) requests s.

(** * Properties *)

(** ** The data-source router *)

Section Router.

Import DataSourceService.

Lemma DataSource_eqb_eq (a b : DataSource) : DataSource_eqb a b = true ↔ a = b.
Proof. destruct a, b; simpl; split; congruence. Qed.

Lemma DataSource_eqb_refl (a : DataSource) : DataSource_eqb a a = true.
Proof. by destruct a. Qed.

Lemma switch_to_current (d : DataSource) (now : datetime) (s : t) :
  current_source (snd (switch_to d now s)) = d.
Proof.
  destruct d; simpl; unfold switch_to_lake, switch_to_rds;
    destruct (current_source s) eqn:E; simpl; congruence.
Qed.

Lemma switch_to_status (d : DataSource) (now : datetime) (s : t) :
  status (fst (switch_to d now s)) = "already_active"
  ∨ status (fst (switch_to d now s)) = "switched".
Proof.
  destruct d; simpl; unfold switch_to_lake, switch_to_rds;
    destruct (current_source s); simpl; auto.
Qed.

(** C5. Invoking the switch whose target is the current source returns
    [already_active] and leaves the source and the switch timestamp as
    they were; in particular the second of two equal switches in a row
    does so, whatever the state before the first. *)
Theorem switch_matching_current_is_noop (d : DataSource) (now : datetime) (s : t) :
  (current_source s = d →
     status (fst (switch_to d now s)) = "already_active"
     ∧ fst (switch_to d now s) = AlreadyActive d
     ∧ current_source (snd (switch_to d now s)) = current_source s
     ∧ switch_timestamp (snd (switch_to d now s)) = switch_timestamp s)
  ∧ (∀ later : datetime,
       let s1 := snd (switch_to d now s) in
       status (fst (switch_to d later s1)) = "already_active"
       ∧ snd (switch_to d later s1) = s1).
Proof.
  assert (Hsame : ∀ t0 (s0 : t), current_source s0 = d →
            switch_to d t0 s0 = (AlreadyActive d, s0)).
  { intros t0 s0 E. destruct d; simpl;
      unfold switch_to_lake, switch_to_rds; rewrite E; reflexivity. }
  split.
  - intros E. rewrite (Hsame now s E). simpl. auto.
  - intros later s1. subst s1.
    rewrite (Hsame later _ (switch_to_current d now s)). simpl. auto.
Qed.

Lemma switch_matching_current_is_noop_witness :
  current_source (mk RDS (Some 1700000000000000)) = RDS
  ∧ status (fst (switch_to RDS 1700000000500000 (mk RDS (Some 1700000000000000))))
    = "already_active"
  ∧ switch_timestamp
      (snd (switch_to RDS 1700000000500000 (mk RDS (Some 1700000000000000))))
    = Some 1700000000000000.
Proof.
  split; [reflexivity|].
  destruct (switch_matching_current_is_noop RDS 1700000000500000
              (mk RDS (Some 1700000000000000))) as [H _].
  destruct (H eq_refl) as (H1 & _ & _ & H4).
  split; [exact H1 | exact H4].
Defined.

End Router.

(** ** The consumer's health check *)

Section Health.

Import KafkaService.

Lemma emit_fields (record : LogRecord) (now : Q) (h : WarningHandler) (k : t) :
  consumer (emit record now h k).2 = consumer k
  ∧ running (emit record now h k).2 = running k.
Proof. unfold emit. repeat case_match; simpl; auto. Qed.

(** C8, as amended. The health check is the conjunction of four tests:
    a consumer has been constructed, the loop is running, the error
    count is below the maximum, and no failover was triggered. *)
Theorem health_check_iff (k : t) :
  health_check k = true
  ↔ consumer k = true
    ∧ running k = true
    ∧ consecutive_errors k < max_consecutive_errors k
    ∧ failover_triggered k = false.
Proof.
  unfold health_check.
  rewrite !andb_true_iff, negb_true_iff, Z.ltb_lt. tauto.
Qed.

(** C8 as stated fails: a service that was started without a consumer
    is running, has no errors and no failover, and is unhealthy. *)
Lemma health_check_has_fourth_conjunct :
  ¬ (∀ k : t,
       health_check k = true
       ↔ running k = true
         ∧ consecutive_errors k < max_consecutive_errors k
         ∧ failover_triggered k = false).
Proof.
  intros H.
  destruct (H (start_consuming init)) as [_ H2].
  assert (E : health_check (start_consuming init) = true).
  { apply H2. vm_compute. repeat split; congruence. }
  vm_compute in E. discriminate.
Qed.

(** On the states the application produces the first test follows from
    the second: the loop runs only where a consumer exists. *)
Lemma app_reachable_consumer (k : t) :
  app_reachable k → running k = true → consumer k = true.
Proof.
  induction 1 as [|ok k _ IH|k _ IH Hc|k _ IH|k _ IH|fs value k r _ IH
                 |record now k _ IH]; simpl.
  - discriminate.
  - unfold connect. destruct ok; [|exact IH].
    unfold _setup_warning_handler. simpl. by destruct (warning_handler k).
  - unfold start_consuming. by destruct (negb (running k)).
  - unfold stop_consuming, set_running.
    destruct (running k) eqn:E; simpl; [discriminate | by rewrite E].
  - discriminate.
  - unfold process_message, bind, set_errors.
    destruct value; try exact IH; repeat case_match; simpl; exact IH.
  - unfold log_record. destruct (warning_handler k) as [h|]; [|exact IH].
    pose proof (emit_fields record now h k) as (Ec & Er).
    destruct (emit record now h k) as [h' k']. simpl in *.
    intros Hr. rewrite Ec. apply IH. by rewrite <- Er.
Qed.

End Health.

(** ** The race between the cache and the failover store *)

Section Race.

Import ParallelFetchService.

Implicit Types (d : gmap string pyval) (r : RedisService.t)
  (table : list RDSService.Row) (race : Race) (user_id : Z).

Lemma dict_truthy_insert {A} (k : string) (v : A) (m : gmap string A) :
  dict_truthy (<[k := v]> m) = true.
Proof.
  unfold dict_truthy. destruct (size (<[k := v]> m)) eqn:E; [|reflexivity].
  apply map_size_empty_iff in E. by apply insert_non_empty in E.
Qed.

Lemma dict_truthy_empty {A} : dict_truthy (∅ : gmap string A) = false.
Proof. reflexivity. Qed.

Lemma fetch_user_from_redis_Some fault r user_id :
  result_truthy (fetch_user_from_redis fault r user_id)
  = negb fault && redis_has r user_id.
Proof.
  unfold fetch_user_from_redis, RedisService.get_user_data, redis_has.
  destruct fault; [reflexivity|]. simpl.
  destruct (dict_truthy (RedisService.hgetall r _)); simpl; [|reflexivity].
  by rewrite !dict_truthy_insert.
Qed.

Lemma fetch_user_from_rds_Some fault table user_id :
  result_truthy (fetch_user_from_rds fault table user_id)
  = negb fault && rds_has table user_id.
Proof.
  unfold fetch_user_from_rds, RDSService.get_user_by_id, rds_has.
  destruct fault; [reflexivity|]. simpl.
  destruct (RDSService.fetchone table user_id); simpl; [|reflexivity].
  by rewrite !dict_truthy_insert.
Qed.

Lemma result_truthy_is_Some (o : option (gmap string pyval)) :
  result_truthy o = true → is_Some o.
Proof. destruct o; [eauto | discriminate]. Qed.

(** Both lookups return either nothing or a non-empty dict. *)
Lemma fetch_user_from_redis_truthy fault r user_id :
  result_truthy (fetch_user_from_redis fault r user_id)
  = bool_decide (is_Some (fetch_user_from_redis fault r user_id)).
Proof.
  unfold fetch_user_from_redis, RedisService.get_user_data.
  destruct fault; [reflexivity|].
  destruct (dict_truthy (RedisService.hgetall r _)); simpl; [|reflexivity].
  by rewrite !dict_truthy_insert.
Qed.

Lemma fetch_user_from_rds_truthy fault table user_id :
  result_truthy (fetch_user_from_rds fault table user_id)
  = bool_decide (is_Some (fetch_user_from_rds fault table user_id)).
Proof.
  unfold fetch_user_from_rds, RDSService.get_user_by_id.
  destruct fault; [reflexivity|].
  destruct (RDSService.fetchone table user_id); simpl; [|reflexivity].
  by rewrite !dict_truthy_insert.
Qed.

(** The race returns the result of one of its two lookups. *)
Lemma fetch_user_parallel_origin race r table user_id d :
  fetch_user_parallel race r table user_id = Some d →
  fetch_user_from_redis (redis_fault race) r user_id = Some d
  ∨ fetch_user_from_rds (rds_fault race) table user_id = Some d.
Proof.
  unfold fetch_user_parallel.
  destruct (schedule race) as [[]|[]|[]]; simpl;
    destruct (result_truthy (fetch_user_from_redis (redis_fault race) r user_id)) eqn:E1;
    destruct (result_truthy (fetch_user_from_rds (rds_fault race) table user_id)) eqn:E2;
    simpl; rewrite ?E1, ?E2; simpl; rewrite ?E1, ?E2; simpl;
    intros H; try discriminate; auto.
Qed.

Lemma fetch_user_parallel_truthy race r table user_id :
  result_truthy (fetch_user_parallel race r table user_id)
  = (redis_has r user_id && redis_answers race)
    || (rds_has table user_id && rds_answers race).
Proof.
  unfold redis_answers, rds_answers.
  pose proof (fetch_user_from_redis_Some (redis_fault race) r user_id) as E1.
  pose proof (fetch_user_from_rds_Some (rds_fault race) table user_id) as E2.
  unfold fetch_user_parallel.
  destruct (schedule race) as [[]|[]|[]]; simpl;
    destruct (result_truthy (fetch_user_from_redis (redis_fault race) r user_id)) eqn:T1;
    destruct (result_truthy (fetch_user_from_rds (rds_fault race) table user_id)) eqn:T2;
    simpl; rewrite ?T1, ?T2; simpl; rewrite ?T1, ?T2; simpl;
    destruct (redis_fault race), (rds_fault race),
      (redis_has r user_id), (rds_has table user_id);
    simpl in *; congruence.
Qed.

Lemma fetch_user_parallel_is_Some race r table user_id :
  is_Some (fetch_user_parallel race r table user_id)
  ↔ result_truthy (fetch_user_parallel race r table user_id) = true.
Proof.
  split; [|apply result_truthy_is_Some].
  intros [d Hd]. rewrite Hd. simpl.
  destruct (fetch_user_parallel_origin _ _ _ _ _ Hd) as [H|H].
  - pose proof (fetch_user_from_redis_truthy (redis_fault race) r user_id) as T.
    by rewrite H in T.
  - pose proof (fetch_user_from_rds_truthy (rds_fault race) table user_id) as T.
    by rewrite H in T.
Qed.

(** C3, as amended. The race returns a record exactly when some store
    holds a record for the id and the lookup in that store reaches the
    caller (it neither raises nor is abandoned by the 2 s fallback
    timeout); the record is the one a lookup returned; and when neither
    store holds the id the race returns nothing. *)
Theorem fetch_user_parallel_found_iff race r table user_id :
  (is_Some (fetch_user_parallel race r table user_id)
   ↔ (redis_has r user_id = true ∧ redis_answers race = true)
     ∨ (rds_has table user_id = true ∧ rds_answers race = true))
  ∧ (∀ d, fetch_user_parallel race r table user_id = Some d →
       fetch_user_from_redis (redis_fault race) r user_id = Some d
       ∨ fetch_user_from_rds (rds_fault race) table user_id = Some d)
  ∧ (redis_has r user_id = false → rds_has table user_id = false →
     fetch_user_parallel race r table user_id = None).
Proof.
  split; [|split].
  - rewrite fetch_user_parallel_is_Some, fetch_user_parallel_truthy.
    rewrite orb_true_iff, !andb_true_iff. tauto.
  - apply fetch_user_parallel_origin.
  - intros H1 H2.
    destruct (fetch_user_parallel race r table user_id) eqn:E; [|reflexivity].
    assert (T : is_Some (fetch_user_parallel race r table user_id)) by (rewrite E; eauto).
    rewrite fetch_user_parallel_is_Some, fetch_user_parallel_truthy, H1, H2 in T.
    discriminate.
Qed.

Lemma fetch_user_parallel_found_iff_witness :
  redis_has RedisService.empty 5 = false
  ∧ rds_has [RDSService.mkRow 7 (PStr "tok") (PStr "ios") (PStr "dev")] 5 = false
  ∧ fetch_user_parallel (mkRace (BothDone true) false false) RedisService.empty
      [RDSService.mkRow 7 (PStr "tok") (PStr "ios") (PStr "dev")] 5 = None.
Proof.
  split; [reflexivity|]. split; [reflexivity|].
  apply (fetch_user_parallel_found_iff (mkRace (BothDone true) false false)
           RedisService.empty
           [RDSService.mkRow 7 (PStr "tok") (PStr "ios") (PStr "dev")] 5);
    reflexivity.
Defined.

(** C3 as stated fails: the failover store holds id 5, the cache does
    not and answers first, and the lookup in the failover store does not
    finish within the fallback timeout. The race returns nothing. *)
Lemma fetch_user_parallel_times_out :
  rds_has [RDSService.mkRow 5 (PStr "tok") (PStr "ios") (PStr "dev")] 5 = true
  ∧ fetch_user_parallel (mkRace (RedisFirst false) false false) RedisService.empty
      [RDSService.mkRow 5 (PStr "tok") (PStr "ios") (PStr "dev")] 5 = None
  ∧ ¬ (∀ race r table user_id,
         is_Some (fetch_user_parallel race r table user_id)
         ↔ redis_has r user_id = true ∨ rds_has table user_id = true).
Proof.
  split; [reflexivity|]. split; [reflexivity|].
  intros H.
  destruct (H (mkRace (RedisFirst false) false false) RedisService.empty
              [RDSService.mkRow 5 (PStr "tok") (PStr "ios") (PStr "dev")] 5)
    as [_ H2].
  destruct H2 as [d Hd]; [right; reflexivity|].
  vm_compute in Hd. discriminate.
Qed.

Lemma get_user_by_id_shape fault table user_id d :
  RDSService.get_user_by_id fault table user_id = Return (Some d) →
  ∃ row, RDSService.fetchone table user_id = Some row
    ∧ d = <["user_id" := PInt (RDSService.row_user_id row)]>
            (<["platform" := py_or (RDSService.row_platform row) (PStr "")]>
              (<["device_id" := py_or (RDSService.row_device_id row) (PStr "")]> ∅)).
Proof.
  unfold RDSService.get_user_by_id. destruct fault; [discriminate|].
  destruct (RDSService.fetchone table user_id) as [row|]; [|discriminate].
  intros [= <-]. eauto.
Qed.

Lemma fetch_user_from_rds_shape fault table user_id d :
  fetch_user_from_rds fault table user_id = Some d →
  ∃ d0, RDSService.get_user_by_id fault table user_id = Return (Some d0)
    ∧ d = <["source" := PStr "rds"]> d0.
Proof.
  unfold fetch_user_from_rds.
  destruct (RDSService.get_user_by_id fault table user_id) as [|[d0|]] eqn:E;
    try discriminate.
  destruct (get_user_by_id_shape _ _ _ _ E) as (row & _ & ->).
  simpl. rewrite dict_truthy_insert. intros [= <-]. eauto.
Qed.

Lemma fetch_user_from_redis_source fault r user_id d :
  fetch_user_from_redis fault r user_id = Some d →
  d !! "source" = Some (PStr "redis")
  ∧ d !! "user_id" = Some (PInt user_id).
Proof.
  unfold fetch_user_from_redis, RedisService.get_user_data.
  destruct fault; [discriminate|].
  destruct (dict_truthy (RedisService.hgetall r _)); simpl; [|discriminate].
  rewrite dict_truthy_insert. intros [= <-]. split; reflexivity.
Qed.

(** C10. The dict built from a row of the failover store has the keys
    [user_id], [platform] and [device_id] only, whatever the row holds
    in [consumer_token]; tagged with its provenance it has the key
    [source] in addition; and a result of the race tagged [rds] has no
    [consumer_token]. *)
Theorem rds_record_never_carries_token fault table user_id d :
  (RDSService.get_user_by_id fault table user_id = Return (Some d) →
     dom d = ({[ "user_id"; "platform"; "device_id" ]} : gset string)
     ∧ d !! "consumer_token" = None)
  ∧ (fetch_user_from_rds fault table user_id = Some d →
     dom d = ({[ "user_id"; "platform"; "device_id"; "source" ]} : gset string)
     ∧ d !! "consumer_token" = None
     ∧ d !! "source" = Some (PStr "rds"))
  ∧ (∀ race r,
       fetch_user_parallel race r table user_id = Some d →
       d !! "source" = Some (PStr "rds") →
       d !! "consumer_token" = None).
Proof.
  assert (A : ∀ f d1, RDSService.get_user_by_id f table user_id = Return (Some d1) →
            dom d1 = ({[ "user_id"; "platform"; "device_id" ]} : gset string)
            ∧ d1 !! "consumer_token" = None).
  { intros f d1 H. destruct (get_user_by_id_shape _ _ _ _ H) as (row & _ & ->).
    split; [|reflexivity].
    rewrite !dom_insert_L, dom_empty_L. set_solver. }
  assert (B : ∀ f d1, fetch_user_from_rds f table user_id = Some d1 →
            dom d1 = ({[ "user_id"; "platform"; "device_id"; "source" ]} : gset string)
            ∧ d1 !! "consumer_token" = None
            ∧ d1 !! "source" = Some (PStr "rds")).
  { intros f d1 H. destruct (fetch_user_from_rds_shape _ _ _ _ H) as (d0 & H0 & ->).
    destruct (A _ _ H0) as [Hdom Htok].
    split; [|split].
    - rewrite dom_insert_L, Hdom. set_solver.
    - rewrite lookup_insert_ne; [exact Htok | discriminate].
    - apply lookup_insert_eq. }
  split; [apply A | split; [apply B |]].
  intros race r Hrace Hsrc.
  destruct (fetch_user_parallel_origin _ _ _ _ _ Hrace) as [H|H].
  - apply fetch_user_from_redis_source in H as [H _]. congruence.
  - by destruct (B _ _ H) as (_ & ? & _).
Qed.

Lemma rds_record_never_carries_token_witness :
  fetch_user_from_rds false
    [RDSService.mkRow 5 (PStr "secret-token") (PStr "ios") PNone] 5
  = Some (<["source" := PStr "rds"]>
           (<["user_id" := PInt 5]>
             (<["platform" := PStr "ios"]> (<["device_id" := PStr ""]> ∅))))
  ∧ (<["source" := PStr "rds"]>
      (<["user_id" := PInt 5]>
        (<["platform" := PStr "ios"]> (<["device_id" := PStr ""]> ∅)))
      : gmap string pyval) !! "consumer_token" = None.
Proof.
  split; [reflexivity|].
  apply (rds_record_never_carries_token false
           [RDSService.mkRow 5 (PStr "secret-token") (PStr "ios") PNone] 5).
  reflexivity.
Defined.

End Race.

(** ** The batch fetch *)

Section Batch.

Import ParallelFetchService.

Implicit Types (d : gmap string pyval) (ids : list Z)
  (task : nat → Z → exc (option (gmap string pyval)))
  (items : list (Z * exc (option (gmap string pyval)))).

Lemma classify_step (acc : list (gmap string pyval) * list Z) item :
  classify acc item
  = (acc.1 ++ option_list (found_of item), acc.2 ++ option_list (missed_of item)).
Proof.
  destruct acc as [fu nf], item as [id [e|[d|]]]; unfold missed_of, found_of; simpl;
    rewrite ?app_nil_r; try reflexivity.
  destruct (dict_truthy d); simpl; by rewrite ?app_nil_r.
Qed.

Lemma classify_fold items (fu : list (gmap string pyval)) (nf : list Z) :
  fold_left classify items (fu, nf)
  = (fu ++ omap found_of items, nf ++ omap missed_of items).
Proof.
  revert fu nf. induction items as [|item items IH]; intros fu nf; cbn [fold_left omap list_omap].
  - by rewrite !app_nil_r.
  - rewrite classify_step, IH. cbn [fst snd].
    destruct (found_of item) eqn:F; unfold missed_of; rewrite F; simpl;
      by rewrite <- ?app_assoc, ?app_nil_r.
Qed.

Lemma combine_imap task ids :
  combine ids (imap task ids) = imap (λ i id, (id, task i id)) ids.
Proof.
  revert task. induction ids as [|id ids IH]; intros task; [reflexivity|].
  simpl. by rewrite IH.
Qed.

Lemma imap_ids task ids :
  (λ item : Z * exc (option (gmap string pyval)), Some (PInt item.1))
    <$> imap (λ i id, (id, task i id)) ids
  = (λ id, Some (PInt id)) <$> ids.
Proof.
  revert task. induction ids as [|id ids IH]; intros task; [reflexivity|].
  cbn [imap fmap list_fmap]. f_equal. apply (IH (λ i, task (S i))).
Qed.

Lemma found_missed_length items :
  (length (omap found_of items) + length (omap missed_of items) = length items)%nat.
Proof.
  induction items as [|item items IH]; [reflexivity|].
  cbn [omap list_omap]. unfold missed_of at 1.
  destruct (found_of item); cbn [length] in *; lia.
Qed.

(** Every entry goes to one of the two lists, and the ids are kept. *)
Lemma found_missed_perm items :
  (∀ item d, item ∈ items → found_of item = Some d →
     record_id d = Some (PInt item.1)) →
  Permutation ((λ item, Some (PInt item.1)) <$> items)
    ((record_id <$> omap found_of items)
       ++ ((λ id, Some (PInt id)) <$> omap missed_of items)).
Proof.
  induction items as [|item items IH]; intros Hid; [constructor|].
  assert (IH' := IH (λ it d H, Hid it d (list_elem_of_further _ _ _ H))).
  simpl. unfold missed_of at 1.
  destruct (found_of item) as [d|] eqn:F; simpl.
  - rewrite (Hid item d (list_elem_of_here _ _) F). by constructor.
  - by apply Permutation_cons_app.
Qed.

Lemma race_task_record_id races r table i user_id d :
  race_task races r table i user_id = Return (Some d) →
  record_id d = Some (PInt user_id).
Proof.
  unfold race_task. intros [= H].
  destruct (fetch_user_parallel_origin _ _ _ _ _ H) as [H1|H1].
  - by apply fetch_user_from_redis_source in H1 as [_ ?].
  - apply fetch_user_from_rds_shape in H1 as (d0 & H0 & ->).
    apply get_user_by_id_shape in H0 as (row & Hrow & ->).
    unfold RDSService.fetchone in Hrow. apply find_some in Hrow as [_ Hrow].
    apply Z.eqb_eq in Hrow. unfold record_id.
    rewrite lookup_insert_ne by discriminate.
    rewrite lookup_insert_eq. by rewrite Hrow.
Qed.

(** C4, as amended. The batch fetch returns normally whatever its tasks did; every
    position of the input contributes to exactly one of the two lists
    (a record to [users] when its race returned one, its id to
    [not_found] when the race raised or returned nothing), so that the
    lists have together as many entries as the input; nothing else is in
    them; and for the races the service runs, the ids of the records
    together with [not_found] are a rearrangement of the input, hence
    for an input without repetition no id is in both. *)
Theorem fetch_multiple_partitions_input task ids :
  ∃ b,
    fetch_multiple_users_parallel task ids = Return b
    ∧ total b = Z.of_nat (length (users b))
    ∧ (length (users b) + length (not_found b) = length ids)%nat
    ∧ (∀ i id, ids !! i = Some id →
         match task i id with
         | Raise _ => id ∈ not_found b
         | Return None => id ∈ not_found b
         | Return (Some d) =>
             if dict_truthy d then d ∈ users b else id ∈ not_found b
         end)
    ∧ (∀ d, d ∈ users b →
         ∃ i id, ids !! i = Some id ∧ task i id = Return (Some d)
                 ∧ dict_truthy d = true)
    ∧ (∀ id, id ∈ not_found b →
         ∃ i, ids !! i = Some id ∧ found_of (id, task i id) = None)
    ∧ (∀ races r table, task = race_task races r table →
         Permutation ((λ id, Some (PInt id)) <$> ids)
           ((record_id <$> users b) ++ ((λ id, Some (PInt id)) <$> not_found b))
         ∧ (NoDup ids →
            ∀ id, ¬ (Some (PInt id) ∈ record_id <$> users b ∧ id ∈ not_found b))).
Proof.
  unfold fetch_multiple_users_parallel.
  rewrite combine_imap, classify_fold. simpl.
  set (items := imap (λ i id, (id, task i id)) ids).
  assert (Hlook : ∀ i item, items !! i = Some item ↔
            ∃ id, ids !! i = Some id ∧ item = (id, task i id)).
  { intros i item. unfold items. rewrite list_lookup_imap.
    destruct (ids !! i) as [id|]; simpl; split.
    - intros [= <-]. eauto.
    - intros (id' & [= <-] & ->). reflexivity.
    - discriminate.
    - intros (? & ? & _). discriminate. }
  eexists. split; [reflexivity|]. simpl.
  split; [reflexivity|].
  split.
  { rewrite found_missed_length. unfold items. apply length_imap. }
  split.
  { intros i id Hi.
    assert (Hitem : (id, task i id) ∈ items).
    { apply list_elem_of_lookup. exists i. apply Hlook. eauto. }
    destruct (task i id) as [e|[d|]] eqn:E.
    - apply list_elem_of_omap. eexists. split; [exact Hitem|]. reflexivity.
    - destruct (dict_truthy d) eqn:T.
      + apply list_elem_of_omap. eexists. split; [exact Hitem|].
        unfold found_of. simpl. by rewrite T.
      + apply list_elem_of_omap. eexists. split; [exact Hitem|].
        unfold missed_of, found_of. simpl. by rewrite T.
    - apply list_elem_of_omap. eexists. split; [exact Hitem|]. reflexivity. }
  split.
  { intros d Hd. apply list_elem_of_omap in Hd as (item & Hin & Hf).
    apply list_elem_of_lookup in Hin as [i Hi].
    apply Hlook in Hi as (id & Hid & ->).
    exists i, id. split; [exact Hid|].
    unfold found_of in Hf. simpl in Hf.
    destruct (task i id) as [e|[d'|]]; try discriminate.
    destruct (dict_truthy d') eqn:T; [|discriminate].
    by injection Hf as ->. }
  split.
  { intros id Hid. apply list_elem_of_omap in Hid as (item & Hin & Hm).
    apply list_elem_of_lookup in Hin as [i Hi].
    apply Hlook in Hi as (id' & Hid' & ->).
    unfold missed_of in Hm.
    destruct (found_of (id', task i id')) eqn:F; [discriminate|].
    injection Hm as <-. eauto. }
  intros races r table ->.
  assert (P : Permutation ((λ id, Some (PInt id)) <$> ids)
           ((record_id <$> omap found_of items)
            ++ ((λ id, Some (PInt id)) <$> omap missed_of items))).
  { rewrite <- found_missed_perm.
    - unfold items. by rewrite imap_ids.
    - intros item d Hin Hf.
      apply list_elem_of_lookup in Hin as [i Hi].
      apply Hlook in Hi as (id & _ & ->). cbn [fst].
      unfold found_of in Hf. cbn [snd] in Hf.
      destruct (race_task races r table i id) as [e|[d'|]] eqn:E; try discriminate.
      destruct (dict_truthy d'); [|discriminate]. injection Hf as ->.
      eapply race_task_record_id, E. }
  split; [exact P|].
  intros Hnd id [H1 H2].
  assert (ND : NoDup ((λ id, Some (PInt id)) <$> ids)).
  { apply NoDup_fmap_2; [|exact Hnd]. intros x y [= ->]. reflexivity. }
  rewrite P in ND. apply NoDup_app in ND as (_ & Hdisj & _).
  apply (Hdisj _ H1). apply list_elem_of_fmap. eauto.
Qed.

(** C4 as stated fails on a repeated id: id 5 is asked for twice, the
    failover store alone holds it, and only the second race gets its
    answer within the fallback timeout. The id is in both lists. *)
Lemma repeated_id_lands_in_both_lists :
  fetch_multiple_users_parallel
    (race_task
       (λ i, match i with
             | O => mkRace (RedisFirst false) false false
             | S _ => mkRace (RedisFirst true) false false
             end)
       RedisService.empty
       [RDSService.mkRow 5 (PStr "tok") (PStr "ios") (PStr "dev")])
    [5; 5]
  = Return
      (mkBatch
         [ <["source" := PStr "rds"]>
             (<["user_id" := PInt 5]>
               (<["platform" := PStr "ios"]> (<["device_id" := PStr "dev"]> ∅))) ]
         1 [5])
  ∧ record_id
      (<["source" := PStr "rds"]>
        (<["user_id" := PInt 5]>
          (<["platform" := PStr "ios"]> (<["device_id" := PStr "dev"]> ∅))))
    = Some (PInt 5).
Proof. split; reflexivity. Qed.

Lemma fetch_multiple_partitions_input_witness :
  ∃ b,
    fetch_multiple_users_parallel
      (race_task (λ _, mkRace (RedisFirst true) false false)
         (RedisService.add_user_data false RedisService.empty
            (PInt 1) (PStr "tok") (PStr "ios") (PStr "dev")).2
         [RDSService.mkRow 2 (PStr "tok2") (PStr "android") PNone])
      [1; 2; 3] = Return b
    ∧ 3 ∈ not_found b
    ∧ Permutation [Some (PInt 1); Some (PInt 2); Some (PInt 3)]
        ((record_id <$> users b) ++ ((λ id, Some (PInt id)) <$> not_found b)).
Proof.
  destruct (fetch_multiple_partitions_input
              (race_task (λ _, mkRace (RedisFirst true) false false)
                 (RedisService.add_user_data false RedisService.empty
                    (PInt 1) (PStr "tok") (PStr "ios") (PStr "dev")).2
                 [RDSService.mkRow 2 (PStr "tok2") (PStr "android") PNone])
              [1; 2; 3])
    as (b & Hb & _ & _ & Hplace & _ & _ & Hperm).
  exists b. split; [exact Hb|]. split.
  - exact (Hplace 2%nat 3 eq_refl).
  - exact (proj1 (Hperm _ _ _ eq_refl)).
Defined.

End Batch.

(** ** The cache under the sync and the consumer *)

Section Cache.

Import RedisService SyncService.

Implicit Types (r : RedisService.t) (fs : list bool) (uid : pyval).

Lemma keeps_entries_refl r : keeps_entries r r.
Proof. split; [reflexivity|]. intros key h H. eauto. Qed.

Lemma keeps_entries_trans r1 r2 r3 :
  keeps_entries r1 r2 → keeps_entries r2 r3 → keeps_entries r1 r3.
Proof.
  intros [S1 H1] [S2 H2]. split; [by etrans|].
  intros key h Hh. destruct (H1 _ _ Hh) as (h' & Hh' & D1).
  destruct (H2 _ _ Hh') as (h'' & Hh'' & D2).
  exists h''. split; [exact Hh'' | by etrans].
Qed.

Lemma user_key_inj (a b : pyval) : user_key a = user_key b → py_str a = py_str b.
Proof. unfold user_key. intros H. injection H as H. exact H. Qed.

(** A write either raises and leaves the store as it was, or stores
    the encoded fields over the hash of the id. *)
Lemma add_user_data_cases fault r uid tok plat dev :
  add_user_data fault r uid tok plat dev = (false, r)
  ∨ ∃ t p d,
      fault = false ∧ encode tok = Some t ∧ encode plat = Some p
      ∧ encode dev = Some d
      ∧ add_user_data fault r uid tok plat dev
        = (true,
           mk ({[ py_str uid ]} ∪ user_ids r)
              (<[ user_key uid :=
                    <["consumer_token" := t]>
                      (<["platform" := p]> (<["device_id" := d]> ∅))
                    ∪ hgetall r (user_key uid) ]> (hashes r))).
Proof.
  unfold add_user_data. destruct fault; [by left|].
  destruct (encode tok) as [t|]; [|by left].
  destruct (encode plat) as [p|]; [|by left].
  destruct (encode dev) as [d|]; [|by left].
  right. exists t, p, d. auto.
Qed.

Lemma add_user_data_keeps fault r uid tok plat dev :
  keeps_entries r (add_user_data fault r uid tok plat dev).2.
Proof.
  destruct (add_user_data_cases fault r uid tok plat dev)
    as [->|(t & p & d & _ & _ & _ & _ & ->)]; [apply keeps_entries_refl|].
  split; simpl; [apply union_subseteq_r|]. intros key h Hh.
  destruct (decide (key = user_key uid)) as [->|Hne].
  - rewrite lookup_insert_eq. eexists. split; [reflexivity|].
    unfold hgetall. rewrite Hh. simpl. rewrite dom_union. set_solver.
  - rewrite lookup_insert_ne by done. eauto.
Qed.

Lemma add_user_data_other fault r uid tok plat dev key :
  key ≠ user_key uid →
  hashes (add_user_data fault r uid tok plat dev).2 !! key = hashes r !! key.
Proof.
  destruct (add_user_data_cases fault r uid tok plat dev)
    as [->|(t & p & d & _ & _ & _ & _ & ->)]; [reflexivity|].
  simpl. intros Hne. by rewrite lookup_insert_ne.
Qed.

Lemma add_user_data_members fault r uid tok plat dev :
  user_ids (add_user_data fault r uid tok plat dev).2
  = if (add_user_data fault r uid tok plat dev).1
    then {[ py_str uid ]} ∪ user_ids r else user_ids r.
Proof.
  by destruct (add_user_data_cases fault r uid tok plat dev)
    as [->|(t & p & d & _ & _ & _ & _ & ->)].
Qed.

(** A write succeeds exactly when the call does not raise: the server
    answers and the client accepts the three values. *)
Lemma add_user_data_ok fault r uid tok plat dev :
  (add_user_data fault r uid tok plat dev).1
  = negb fault && storable tok && storable plat && storable dev.
Proof.
  unfold add_user_data, storable. destruct fault; [reflexivity|].
  by destruct (encode tok), (encode plat), (encode dev).
Qed.

Lemma user_exists_true fault r uid :
  user_exists fault r uid = true ↔ fault = false ∧ py_str uid ∈ user_ids r.
Proof.
  unfold user_exists. destruct fault.
  - split; [discriminate | intros [? _]; discriminate].
  - rewrite bool_decide_eq_true. tauto.
Qed.

Lemma next_fault_no_faults fs :
  no_faults fs → (next_fault fs).1 = false ∧ no_faults (next_fault fs).2.
Proof.
  unfold no_faults. destruct fs as [|f fs]; simpl; intros H.
  - split; [reflexivity|]. intros f Hf. by apply elem_of_nil in Hf.
  - split; [apply H; left|]. intros f' Hf'. apply H. by right.
Qed.

(** An entry whose existence check by the component would succeed is
    left as it is by a write for an id that failed its own check. *)
Lemma add_after_failed_check fault f r uid tok plat dev id :
  user_exists fault r uid = false →
  user_exists fault r id = true →
  hashes (add_user_data f r uid tok plat dev).2 !! user_key id
  = hashes r !! user_key id.
Proof.
  intros Huid Hid. apply user_exists_true in Hid as [-> Hin].
  apply add_user_data_other. intros E. apply user_key_inj in E.
  unfold user_exists in Huid. apply bool_decide_eq_false in Huid.
  congruence.
Qed.

(** *** One record of the sync *)

Lemma sync_user_effect (st : LoopState) (user : gmap string pyval) :
  (redis (sync_user st user) = redis st
   ∧ added_count (sync_user st user) = added_count st
   ∧ skipped_count (sync_user st user) = skipped_count st + 1
   ∧ user_exists (next_fault (faults st)).1 (redis st) (get_or user "user_id" PNone) = true)
  ∨ (user_exists (next_fault (faults st)).1 (redis st) (get_or user "user_id" PNone) = false
     ∧ added_count (sync_user st user) = added_count st + 1
     ∧ skipped_count (sync_user st user) = skipped_count st
     ∧ redis (sync_user st user)
       = (add_user_data (next_fault (next_fault (faults st)).2).1 (redis st)
            (get_or user "user_id" PNone)
            (get_or user "consumer_token" (PStr ""))
            (get_or user "platform" (PStr ""))
            (get_or user "device_id" (PStr ""))).2).
Proof.
  unfold sync_user.
  destruct (next_fault (faults st)) as [f1 fs1]. simpl.
  destruct (user_exists f1 (redis st) _) eqn:E; simpl.
  - left. auto.
  - right. destruct (next_fault fs1) as [f2 fs2]. simpl.
    destruct (add_user_data f2 _ _ _ _ _) as [ok r']. simpl. auto.
Qed.

Lemma sync_user_keeps st user : keeps_entries (redis st) (redis (sync_user st user)).
Proof.
  destruct (sync_user_effect st user) as [(-> & _)|(_ & _ & _ & ->)].
  - apply keeps_entries_refl.
  - apply add_user_data_keeps.
Qed.

Lemma sync_users_keeps users st :
  keeps_entries (redis st) (redis (sync_users users st)).
Proof.
  revert st. induction users as [|user users IH]; intros st; simpl.
  - apply keeps_entries_refl.
  - eapply keeps_entries_trans; [apply sync_user_keeps | apply IH].
Qed.

Lemma sync_user_untouched st user id :
  user_exists (next_fault (faults st)).1 (redis st) id = true →
  hashes (redis (sync_user st user)) !! user_key id
  = hashes (redis st) !! user_key id.
Proof.
  intros Hid.
  destruct (sync_user_effect st user) as [(-> & _)|(Hno & _ & _ & ->)];
    [reflexivity|].
  eapply add_after_failed_check; eauto.
Qed.

Lemma sync_user_faults st user :
  no_faults (faults st) → no_faults (faults (sync_user st user)).
Proof.
  intros H. unfold sync_user.
  destruct (next_fault_no_faults _ H) as [E1 H1].
  destruct (next_fault (faults st)) as [f1 fs1]. simpl in *.
  destruct (negb (user_exists f1 (redis st) _)); simpl; [|exact H1].
  destruct (next_fault_no_faults _ H1) as [E2 H2].
  destruct (next_fault fs1) as [f2 fs2]. simpl in *.
  by destruct (add_user_data f2 _ _ _ _ _).
Qed.

Lemma storable_user_of_row (row : TrinoService.Row) :
  storable_row row → storable_user (TrinoService.user_of_row row).
Proof. by destruct row as [[[c0 c1] c2] c3]. Qed.

(** When no call raises, the id of the record is a member after the
    step. *)
Lemma sync_user_member st user :
  no_faults (faults st) →
  storable_user user →
  cache_exists (redis (sync_user st user)) (get_or user "user_id" PNone) = true.
Proof.
  intros H (S1 & S2 & S3). destruct (next_fault_no_faults _ H) as [E1 H1].
  destruct (next_fault_no_faults _ H1) as [E2 _].
  unfold cache_exists.
  destruct (sync_user_effect st user) as [(-> & _ & _ & Hex)|(_ & _ & _ & ->)].
  - by rewrite E1 in Hex.
  - rewrite E2. apply user_exists_true. split; [reflexivity|].
    rewrite add_user_data_members, add_user_data_ok, S1, S2, S3. simpl.
    apply elem_of_union_l. by apply elem_of_singleton.
Qed.

Lemma cache_exists_keeps r r' uid :
  keeps_entries r r' → cache_exists r uid = true → cache_exists r' uid = true.
Proof.
  unfold cache_exists. intros [Hsub _]. rewrite !user_exists_true.
  intros [_ Hin]. split; [reflexivity | by apply Hsub].
Qed.

Lemma sync_users_members users st :
  no_faults (faults st) →
  ∀ user, user ∈ users →
    storable_user user
    ∨ cache_exists (redis st) (get_or user "user_id" PNone) = true →
    cache_exists (redis (sync_users users st)) (get_or user "user_id" PNone) = true.
Proof.
  intros Hnf user Hin [Hst|Hex].
  - revert st Hnf. induction users as [|u users IH]; intros st Hnf.
    + by apply elem_of_nil in Hin.
    + simpl. apply elem_of_cons in Hin as [->|Hin].
      * eapply cache_exists_keeps; [apply sync_users_keeps|].
        by apply sync_user_member.
      * apply IH; [exact Hin | by apply sync_user_faults].
  - eapply cache_exists_keeps; [apply sync_users_keeps | exact Hex].
Qed.

Lemma sync_users_untouched users st id :
  no_faults (faults st) →
  cache_exists (redis st) id = true →
  hashes (redis (sync_users users st)) !! user_key id
  = hashes (redis st) !! user_key id.
Proof.
  revert st. induction users as [|u users IH]; intros st Hnf Hid; [reflexivity|].
  simpl. rewrite IH.
  - apply sync_user_untouched.
    destruct (next_fault_no_faults _ Hnf) as [-> _]. exact Hid.
  - by apply sync_user_faults.
  - eapply cache_exists_keeps; [apply sync_user_keeps | exact Hid].
Qed.

Lemma sync_users_counts users st :
  added_count (sync_users users st) + skipped_count (sync_users users st)
  = added_count st + skipped_count st + Z.of_nat (length users)
  ∧ added_count st ≤ added_count (sync_users users st)
  ∧ skipped_count st ≤ skipped_count (sync_users users st).
Proof.
  revert st. induction users as [|u users IH]; intros st.
  - simpl. lia.
  - cbn [sync_users fold_left length]. fold (sync_users users (sync_user st u)).
    destruct (IH (sync_user st u)) as (E & A & S).
    destruct (sync_user_effect st u) as [(_ & Ea & Es & _)|(_ & Ea & Es & _)]; lia.
Qed.

(** *** One event of the consumer *)

Lemma process_message_effect fs (value : pyval) (k : KafkaService.t) r :
  (KafkaService.process_message fs value k r).1.2 = r
  ∨ ∃ uid tok plat dev f,
      user_exists (next_fault fs).1 r uid = false
      ∧ (KafkaService.process_message fs value k r).1.2
        = (add_user_data f r uid tok plat dev).2.
Proof.
  unfold KafkaService.process_message, bind.
  destruct value; try (left; reflexivity).
  all: repeat case_match; simplify_eq; simpl in *; try (left; reflexivity).
  all: right; repeat eexists;
    match goal with
    | H : negb (user_exists _ _ _) = true |- _ => apply negb_true_iff in H
    end; eauto.
Qed.

Lemma process_message_keeps fs (value : pyval) (k : KafkaService.t) r :
  keeps_entries r (KafkaService.process_message fs value k r).1.2.
Proof.
  destruct (process_message_effect fs value k r)
    as [->|(uid & tok & plat & dev & f & _ & ->)].
  - apply keeps_entries_refl.
  - apply add_user_data_keeps.
Qed.

Lemma process_message_untouched fs (value : pyval) (k : KafkaService.t) r id :
  user_exists (next_fault fs).1 r id = true →
  hashes (KafkaService.process_message fs value k r).1.2 !! user_key id
  = hashes r !! user_key id.
Proof.
  intros Hid.
  destruct (process_message_effect fs value k r)
    as [->|(uid & tok & plat & dev & f & Hno & ->)]; [reflexivity|].
  eapply add_after_failed_check; eauto.
Qed.

Lemma consume_batch_keeps fs (values : list pyval) (k : KafkaService.t) r :
  keeps_entries r (KafkaService.consume_batch fs values k r).1.2.
Proof.
  revert fs k r. induction values as [|value values IH]; intros fs k r; simpl.
  - apply keeps_entries_refl.
  - destruct (negb (KafkaService.running k)); simpl; [apply keeps_entries_refl|].
    pose proof (process_message_keeps fs value k r) as H.
    destruct (KafkaService.process_message fs value k r) as [[k' r'] fs'].
    simpl in H. eapply keeps_entries_trans; [exact H | apply IH].
Qed.

(** *** The whole sync *)

Lemma initial_sync_redis (scan : option (list TrinoService.Row)) fs r :
  (initial_sync scan fs r).1.2
  = redis (sync_users (TrinoService.fetch_all_users scan)
             (mkLoop r (next_fault fs).2 0 0)).
Proof.
  unfold initial_sync. destruct (next_fault fs) as [f0 fs0]. simpl.
  destruct (TrinoService.fetch_all_users scan) as [|u us]; [reflexivity|].
  destruct (next_fault (faults _)). reflexivity.
Qed.

Lemma get_or_user_id (row : TrinoService.Row) :
  get_or (TrinoService.user_of_row row) "user_id" PNone = row_id row.
Proof. by destruct row as [[[c0 c1] c2] c3]. Qed.




(** The sync never raises. *)
Lemma initial_sync_returns (scan : option (list TrinoService.Row)) fs r :
  ∃ report, (initial_sync scan fs r).1.1 = Return report.
Proof.
  unfold initial_sync. destruct (next_fault fs) as [f0 fs0].
  destruct (TrinoService.fetch_all_users scan) as [|u us]; [by eexists|].
  destruct (next_fault (faults _)). by eexists.
Qed.

(** C7, as amended. A failed scan is absorbed: the sync returns
    normally, logs that no users were fetched and leaves the cache as it
    was; the sync never raises; and after a scan that returned rows it
    logs the counts of added and skipped records, which add up to the
    number of rows. *)
Theorem full_sync_absorbs_scan_failure :
  (∀ fs r, initial_sync None fs r = (Return NoUsersFetched, r, (next_fault fs).2))
  ∧ (∀ scan fs r, ∃ report, (initial_sync scan fs r).1.1 = Return report)
  ∧ (∀ row rows fs r,
       ∃ added skipped final_count,
         (initial_sync (Some (row :: rows)) fs r).1.1
         = Return (Completed added skipped final_count)
         ∧ 0 ≤ added ∧ 0 ≤ skipped
         ∧ added + skipped = Z.of_nat (length (row :: rows))).
Proof.
  split; [|split].
  - intros fs r. unfold initial_sync. by destruct (next_fault fs).
  - apply initial_sync_returns.
  - intros row rows fs r. unfold initial_sync.
    destruct (next_fault fs) as [f0 fs0]. cbn [TrinoService.fetch_all_users map].
    set (users := TrinoService.user_of_row row :: map TrinoService.user_of_row rows).
    destruct (sync_users_counts users (mkLoop r fs0 0 0)) as (E & A & S).
    destruct (next_fault (faults _)). simpl in *.
    do 3 eexists. split; [reflexivity|].
    unfold users in E. simpl in E. rewrite length_map in E. lia.
Qed.

(** C7 as stated fails: with a failing scan the sync returns instead of
    raising. *)
Lemma full_sync_returns_on_scan_failure :
  (initial_sync None [] RedisService.empty).1.1 = Return NoUsersFetched
  ∧ ¬ (∀ fs r, ∃ e, (initial_sync None fs r).1.1 = Raise e).
Proof.
  split; [reflexivity|].
  intros H. destruct (H [] RedisService.empty) as [e He]. discriminate.
Qed.

(** A change event whose [after] is missing or null is skipped: nothing
    is written and the error counter is set to zero. *)
Lemma process_message_null_after fs (fields payload : list (string * pyval))
    (k : KafkaService.t) r :
  assoc "payload" fields = Some (PDict payload) →
  assoc "after" payload = None ∨ assoc "after" payload = Some PNone →
  KafkaService.process_message fs (PDict fields) k r
  = (KafkaService.set_errors 0 k, r, fs).
Proof.
  intros Hp Ha. unfold KafkaService.process_message, get_default, bind.
  rewrite Hp. by destruct Ha as [-> | ->].
Qed.

(** C9, as amended. Neither the consumer nor the sync removes a member,
    a hash or a field of a hash from the cache; an entry whose existence
    check by the component answers [True] keeps its stored fields, for
    each event and each record, and over a whole sync in which no call
    to the server raises; a message without value leaves the cache and
    the error counter as they are, and a change event whose [after] is
    null leaves the cache as it is and sets the error counter to zero. *)
Theorem cache_is_append_only :
  (∀ fs (value : pyval) (k : KafkaService.t) r,
     keeps_entries r (KafkaService.process_message fs value k r).1.2
     ∧ ∀ id, user_exists (next_fault fs).1 r id = true →
         hashes (KafkaService.process_message fs value k r).1.2 !! user_key id
         = hashes r !! user_key id)
  ∧ (∀ fs (values : list pyval) (k : KafkaService.t) r,
       keeps_entries r (KafkaService.consume_batch fs values k r).1.2)
  ∧ (∀ (st : LoopState) (user : gmap string pyval),
       keeps_entries (redis st) (redis (sync_user st user))
       ∧ ∀ id, user_exists (next_fault (faults st)).1 (redis st) id = true →
           hashes (redis (sync_user st user)) !! user_key id
           = hashes (redis st) !! user_key id)
  ∧ (∀ (scan : option (list TrinoService.Row)) fs r,
       keeps_entries r (initial_sync scan fs r).1.2
       ∧ (no_faults fs → ∀ id, cache_exists r id = true →
            hashes (initial_sync scan fs r).1.2 !! user_key id
            = hashes r !! user_key id))
  ∧ (∀ fs (k : KafkaService.t) r,
       KafkaService.process_message fs PNone k r = (k, r, fs))
  ∧ (∀ fs (fields payload : list (string * pyval)) (k : KafkaService.t) r,
       assoc "payload" fields = Some (PDict payload) →
       assoc "after" payload = None ∨ assoc "after" payload = Some PNone →
       KafkaService.process_message fs (PDict fields) k r
       = (KafkaService.set_errors 0 k, r, fs)).
Proof.
  split; [|split; [|split; [|split; [|split]]]].
  - intros fs value k r. split.
    + apply process_message_keeps.
    + apply process_message_untouched.
  - apply consume_batch_keeps.
  - intros st user. split.
    + apply sync_user_keeps.
    + apply sync_user_untouched.
  - intros scan fs r. split.
    + rewrite initial_sync_redis. apply (sync_users_keeps _ (mkLoop r _ 0 0)).
    + intros Hnf id Hid. rewrite initial_sync_redis.
      apply (sync_users_untouched _ (mkLoop r _ 0 0)); [|exact Hid].
      simpl. by apply next_fault_no_faults.
  - reflexivity.
  - apply process_message_null_after.
Qed.

Lemma cache_is_append_only_witness :
  user_exists false
    (add_user_data false RedisService.empty
       (PInt 7) (PStr "old") (PStr "ios") (PStr "dev")).2 (PInt 7) = true
  ∧ hashes
      (KafkaService.process_message []
         (PDict [("payload",
                  PDict [("after",
                          PDict [("user_id", PInt 7);
                                 ("consumer_token", PStr "new");
                                 ("platform", PStr "android");
                                 ("device_id", PStr "dev2")])])])
         KafkaService.init
         (add_user_data false RedisService.empty
            (PInt 7) (PStr "old") (PStr "ios") (PStr "dev")).2).1.2
    !! user_key (PInt 7)
    = hashes
        (add_user_data false RedisService.empty
           (PInt 7) (PStr "old") (PStr "ios") (PStr "dev")).2
      !! user_key (PInt 7).
Proof.
  split; [reflexivity|].
  apply (proj1 cache_is_append_only). reflexivity.
Defined.

(** C9 as stated fails: the cache holds id 7 with the token [old]; the
    existence check of the component raises and is answered [False], and
    the write that follows replaces the stored fields. This happens for
    an event of the consumer and for a record of the sync. *)
Lemma failed_check_overwrites_entry :
  cache_exists
    (add_user_data false RedisService.empty
       (PInt 7) (PStr "old") (PStr "ios") (PStr "dev")).2 (PInt 7) = true
  ∧ get_user_data false
      (add_user_data false RedisService.empty
         (PInt 7) (PStr "old") (PStr "ios") (PStr "dev")).2 7
    = Some (user_record 7 (PStr "old") (PStr "ios") (PStr "dev"))
  ∧ get_user_data false
      (KafkaService.process_message [true; false]
         (PDict [("payload",
                  PDict [("after",
                          PDict [("user_id", PInt 7);
                                 ("consumer_token", PStr "new");
                                 ("platform", PStr "android");
                                 ("device_id", PStr "dev2")])])])
         KafkaService.init
         (add_user_data false RedisService.empty
            (PInt 7) (PStr "old") (PStr "ios") (PStr "dev")).2).1.2 7
    = Some (user_record 7 (PStr "new") (PStr "android") (PStr "dev2"))
  ∧ get_user_data false
      (initial_sync
         (Some [(PInt 7, PStr "new", PStr "android", PStr "dev2")])
         [false; true; false]
         (add_user_data false RedisService.empty
            (PInt 7) (PStr "old") (PStr "ios") (PStr "dev")).2).1.2 7
    = Some (user_record 7 (PStr "new") (PStr "android") (PStr "dev2")).
Proof. repeat split; vm_compute; reflexivity. Qed.

(** An envelope whose [payload] is null is a processing error: nothing
    is written and the error counter grows by one. *)
Example process_message_null_payload :
  KafkaService.process_message []
    (PDict [("payload", PNone)])
    (KafkaService.mk true true 0 3 None false) RedisService.empty
  = (KafkaService.mk true true 1 3 None false, RedisService.empty, []).
Proof. reflexivity. Qed.

(** A scanned row with a NULL column is counted as added and is not in
    the cache after a sync in which the server answers every call: the
    client refuses the value and the write stores nothing. *)
Example full_sync_skips_null_row :
  (initial_sync (Some [(PInt 8, PNone, PStr "android", PStr "dev8")])
     [] RedisService.empty).1.1
  = Return (Completed 1 0 0)
  ∧ (initial_sync (Some [(PInt 8, PNone, PStr "android", PStr "dev8")])
       [] RedisService.empty).1.2
    = RedisService.empty.
Proof. split; reflexivity. Qed.

End Cache.

(** ** The anomaly window of the warning handler *)

Section Anomaly.

Import KafkaService.

Implicit Types (h : WarningHandler) (k : t) (record : LogRecord)
  (records : list (LogRecord * Q)).

Lemma new_handler_ok : handler_ok new_handler.
Proof. unfold handler_ok. simpl. lia. Qed.

Lemma Qgtb_true (a b : Q) : Qgtb a b = true ↔ (b < a)%Q.
Proof.
  unfold Qgtb. rewrite negb_true_iff, <- not_true_iff_false, Qle_bool_iff.
  split; [apply Qnot_le_lt | apply Qlt_not_le].
Qed.

Lemma Qgtb_false (a b : Q) : Qgtb a b = false ↔ (a <= b)%Q.
Proof. unfold Qgtb. by rewrite negb_false_iff, Qle_bool_iff. Qed.

(** A counted record inside the window: one more, or the trip. *)
Lemma emit_inside record (now : Q) h k :
  handler_ok h → matching record = true →
  Qgtb (now - last_warning_time h) (inject_Z 30) = false →
  emit record now h k
  = if warning_count h + 1 >=? 10
    then (mkHandler 0 now 30 10, set_errors (max_consecutive_errors k) k)
    else (mkHandler (warning_count h + 1) now 30 10, k).
Proof.
  intros (Hw & Ht & _) Hm Hin. unfold matching in Hm.
  apply andb_true_iff in Hm as [Hl Hc].
  unfold emit. by rewrite Hl, Hc, Hw, Ht, Hin.
Qed.

(** A counted record after a gap: the count starts again at one. *)
Lemma emit_after_gap record (now : Q) h k :
  handler_ok h → matching record = true →
  Qgtb (now - last_warning_time h) (inject_Z 30) = true →
  emit record now h k = (mkHandler 1 now 30 10, k).
Proof.
  intros (Hw & Ht & _) Hm Hgap. unfold matching in Hm.
  apply andb_true_iff in Hm as [Hl Hc].
  unfold emit. by rewrite Hl, Hc, Hw, Ht, Hgap.
Qed.

Lemma emit_cases record (now : Q) h k :
  handler_ok h → matching record = true →
  handler_ok (emit record now h k).1
  ∧ last_warning_time (emit record now h k).1 = now
  ∧ ((emit record now h k).2 = k ∧ 1 ≤ warning_count (emit record now h k).1
     ∨ (emit record now h k).2 = set_errors (max_consecutive_errors k) k).
Proof.
  intros Hok Hm. pose proof Hok as (Hw & Ht & Hc).
  destruct (Qgtb (now - last_warning_time h) (inject_Z 30)) eqn:G.
  - rewrite (emit_after_gap _ _ _ _ Hok Hm G). unfold handler_ok. simpl.
    repeat split; try lia. left. split; [reflexivity | lia].
  - rewrite (emit_inside _ _ _ _ Hok Hm G).
    destruct (warning_count h + 1 >=? 10) eqn:T; unfold handler_ok; simpl.
    + repeat split; try lia. by right.
    + rewrite Z.geb_leb in T. apply Z.leb_gt in T.
      repeat split; try lia. left. split; [reflexivity | lia].
Qed.

Lemma emit_all_cons record (now : Q) records h k :
  emit_all ((record, now) :: records) (h, k)
  = emit_all records (emit record now h k).
Proof. reflexivity. Qed.

(** Every state of the handler satisfies [handler_ok]. *)
Lemma emit_handler_ok record (now : Q) h k :
  handler_ok h → handler_ok (emit record now h k).1.
Proof.
  intros Hok. destruct (matching record) eqn:Hm.
  - by apply emit_cases.
  - unfold matching in Hm. unfold emit.
    destruct (levelno record >=? WARNING); simpl in Hm; [|exact Hok].
    by rewrite Hm.
Qed.

(** The handler never lowers a count of errors that is at the maximum. *)
Lemma emit_service record (now : Q) h k :
  (emit record now h k).2 = k
  ∨ (emit record now h k).2 = set_errors (max_consecutive_errors k) k.
Proof. unfold emit. repeat case_match; simpl; auto. Qed.

Lemma emit_all_tripped records h k :
  consecutive_errors k = max_consecutive_errors k →
  consecutive_errors (emit_all records (h, k)).2
  = max_consecutive_errors (emit_all records (h, k)).2.
Proof.
  revert h k. induction records as [|[record now] records IH]; intros h k Hk;
    [exact Hk|].
  rewrite emit_all_cons.
  destruct (emit record now h k) as [h' k'] eqn:E.
  apply (IH h' k').
  pose proof (emit_service record now h k) as S. rewrite E in S. simpl in S.
  destruct S as [->| ->]; [exact Hk | reflexivity].
Qed.

Lemma emit_all_max records h k :
  max_consecutive_errors (emit_all records (h, k)).2 = max_consecutive_errors k.
Proof.
  revert h k. induction records as [|[record now] records IH]; intros h k;
    [reflexivity|].
  rewrite emit_all_cons.
  destruct (emit record now h k) as [h' k'] eqn:E.
  rewrite (IH h' k').
  pose proof (emit_service record now h k) as S. rewrite E in S. simpl in S.
  by destruct S as [->| ->].
Qed.

Lemma within_window_no_gap (times : list Q) (previous : Q) :
  (∀ a b, a ∈ previous :: times → b ∈ previous :: times →
          Qle_bool (b - a) (inject_Z 30) = true) →
  no_gap previous times.
Proof.
  revert previous. induction times as [|now rest IH]; intros previous H;
    [exact I|].
  split.
  - unfold Qgtb. rewrite (H previous now); [reflexivity | left | right; left].
  - apply IH. intros a b Ha Hb. apply H; by right.
Qed.

Lemma within_window_spec (times : list Q) :
  within_window times = true →
  ∀ a b, a ∈ times → b ∈ times → Qle_bool (b - a) (inject_Z 30) = true.
Proof.
  unfold within_window. rewrite forallb_forall. intros H a b Ha Hb.
  apply list_elem_of_In in Ha, Hb. specialize (H a Ha).
  rewrite forallb_forall in H. exact (H b Hb).
Qed.

Lemma emit_all_after_trip records h k :
  consecutive_errors
    (emit_all records (h, set_errors (max_consecutive_errors k) k)).2
  = max_consecutive_errors k.
Proof. rewrite emit_all_tripped by reflexivity. by rewrite emit_all_max. Qed.

(** Enough counted records without a gap trip the handler. *)
Lemma emit_all_trips records h k :
  handler_ok h → all_matching records = true →
  no_gap (last_warning_time h) (snd <$> records) →
  10 ≤ warning_count h + Z.of_nat (length records) →
  consecutive_errors (emit_all records (h, k)).2 = max_consecutive_errors k.
Proof.
  revert h k. induction records as [|[record now] records IH];
    intros h k Hok Hall Hgap Hlen.
  { destruct Hok as (_ & _ & Hc). simpl in Hlen. lia. }
  cbn [all_matching forallb fst] in Hall. apply andb_true_iff in Hall as [Hm Hall].
  destruct Hgap as [G Hgap]. cbn [snd] in G.
  rewrite emit_all_cons, (emit_inside _ _ _ _ Hok Hm G).
  destruct (warning_count h + 1 >=? 10) eqn:T.
  - apply emit_all_after_trip.
  - rewrite Z.geb_leb in T. apply Z.leb_gt in T.
    apply IH; [| exact Hall | exact Hgap |].
    + destruct Hok as (_ & _ & Hc). unfold handler_ok. simpl. lia.
    + cbn [length warning_count] in *. lia.
Qed.

(** C2. Ten counted records within one window of 30 s leave the error
    count of the service at its maximum, whatever it was before (zero
    included), so that the health check fails; the record that brings
    the count to the threshold sets it in the same call; and a counted
    record that comes more than 30 s after the previous one leaves the
    count at 1, whatever the prior count. *)
Theorem anomaly_window_trips_and_resets :
  (∀ records h k,
     handler_ok h → all_matching records = true →
     length records = 10%nat →
     within_window (snd <$> records) = true →
     consecutive_errors (emit_all records (h, k)).2 = max_consecutive_errors k
     ∧ health_check (emit_all records (h, k)).2 = false)
  ∧ (∀ record (now : Q) h k,
       handler_ok h → matching record = true →
       (now - last_warning_time h <= inject_Z 30)%Q →
       warning_count h = 9 →
       consecutive_errors (emit record now h k).2 = max_consecutive_errors k
       ∧ health_check (emit record now h k).2 = false)
  ∧ (∀ record (now : Q) h k,
       handler_ok h → matching record = true →
       (inject_Z 30 < now - last_warning_time h)%Q →
       warning_count (emit record now h k).1 = 1
       ∧ (emit record now h k).2 = k).
Proof.
  split; [|split].
  - intros records h k Hok Hall Hlen Hwin.
    assert (E : consecutive_errors (emit_all records (h, k)).2
                = max_consecutive_errors k).
    { destruct records as [|[record now] records]; [discriminate|].
      cbn [all_matching forallb fst] in Hall.
      apply andb_true_iff in Hall as [Hm Hall].
      rewrite emit_all_cons.
      pose proof (emit_cases record now h k Hok Hm) as (Hok' & Hlast & Hk).
      destruct (emit record now h k) as [h' k'] eqn:E. simpl in *.
      destruct Hk as [[-> Hc]| ->].
      - apply emit_all_trips; [exact Hok' | exact Hall | | lia].
        rewrite Hlast. apply within_window_no_gap.
        by apply (within_window_spec (now :: (snd <$> records))).
      - apply emit_all_after_trip. }
    split; [exact E|].
    unfold health_check. rewrite E, emit_all_max, Z.ltb_irrefl.
    by rewrite andb_false_r.
  - intros record now h k Hok Hm Hin H9.
    apply Qgtb_false in Hin.
    rewrite (emit_inside _ _ _ _ Hok Hm Hin), H9. simpl.
    split; [reflexivity|].
    unfold health_check. simpl. rewrite Z.ltb_irrefl. by rewrite andb_false_r.
  - intros record now h k Hok Hm Hgap.
    apply Qgtb_true in Hgap.
    by rewrite (emit_after_gap _ _ _ _ Hok Hm Hgap).
Qed.

Lemma anomaly_window_trips_and_resets_witness :
  consecutive_errors
    (emit_all
       [ (mkRecord 30 "Heartbeat session expired", 100 # 1);
         (mkRecord 30 "Marking the coordinator dead", 101 # 1);
         (mkRecord 40 "connection failed", 103 # 1);
         (mkRecord 30 "NodeNotReadyError: 0", 104 # 1);
         (mkRecord 30 "request timed out", 107 # 1);
         (mkRecord 30 "RequestTimedOutError", 110 # 1);
         (mkRecord 30 "coordinator unavailable", 115 # 1);
         (mkRecord 30 "coordinator unavailable", 120 # 1);
         (mkRecord 30 "coordinator unavailable", 125 # 1);
         (mkRecord 30 "coordinator unavailable", 130 # 1) ]
       (new_handler, mk true true 0 3 (Some new_handler) false)).2
  = 3
  ∧ warning_count
      (emit (mkRecord 30 "coordinator unavailable") (200 # 1)
         (mkHandler 7 (130 # 1) 30 10)
         (mk true true 0 3 None false)).1
    = 1.
Proof.
  split.
  - apply (proj1 anomaly_window_trips_and_resets); try reflexivity.
    apply new_handler_ok.
  - apply (proj2 (proj2 anomaly_window_trips_and_resets));
      [unfold handler_ok; simpl; lia | reflexivity | reflexivity].
Defined.

End Anomaly.

(** ** The switch endpoints under pending requests *)

Section Switches.

Import DataSourceService UserRoute.

Implicit Types (q : Request) (env : Env) (w : World).

Lemma switch_to_rds_ok env w :
  env_ok env = true →
  switch_to_rds env w
  = (OK (DataSourceService.switch_to_rds (now env) (datasource w)).1,
     mkWorld (DataSourceService.switch_to_rds (now env) (datasource w)).2
       (KafkaService.stop_consuming (kafka w)) (redis w)).
Proof.
  unfold env_ok, switch_to_rds. intros H.
  apply andb_true_iff in H as [H _]. apply andb_true_iff in H as [H _].
  rewrite <- negb_orb, H. simpl.
  by destruct (DataSourceService.switch_to_rds (now env) (datasource w)).
Qed.

Lemma switch_to_lake_ok env w :
  env_ok env = true →
  ∃ k r,
    switch_to_lake env w
    = (OK (DataSourceService.switch_to_lake (now env) (datasource w)).1,
       mkWorld (DataSourceService.switch_to_lake (now env) (datasource w)).2 k r).
Proof.
  unfold env_ok, switch_to_lake. intros H.
  apply andb_true_iff in H as [H Hk]. apply andb_true_iff in H as [_ H].
  rewrite <- negb_orb, H. simpl.
  destruct (initial_sync_returns (scan env) (redis_faults env) (redis w))
    as [report Hrep].
  destruct (SyncService.initial_sync _ _ _) as [[synced r] fs]. simpl in Hrep.
  subst synced.
  destruct (DataSourceService.switch_to_lake (now env) (datasource w)) as [res ds].
  destruct (negb (KafkaService.health_check (kafka w))); simpl; [|eauto].
  unfold KafkaService.connect. rewrite Hk. eauto.
Qed.

Lemma handle_ok q env w :
  env_ok env = true →
  ∃ k r,
    handle q env w
    = (OK (switch_to (target q) (now env) (datasource w)).1,
       mkWorld (switch_to (target q) (now env) (datasource w)).2 k r).
Proof.
  intros H. destruct q; simpl.
  - rewrite (switch_to_rds_ok _ _ H). eauto.
  - apply (switch_to_lake_ok _ _ H).
Qed.

(** A handler answers 200 with the result of the router, or 500 with
    the router left as it was: there is no other outcome. *)
Lemma handle_outcomes q env w :
  (∃ res, (handle q env w).1 = OK res)
  ∨ (∃ detail, (handle q env w).1 = HTTPException 500 detail
       ∧ datasource (handle q env w).2 = datasource w).
Proof.
  destruct q; simpl; unfold switch_to_rds, switch_to_lake;
    repeat case_match; simpl; eauto.
Qed.

(** C1, as amended. Two pending switch requests are served one after
    the other. When the connections they need can be opened, neither is
    rejected: each answers 200 with status [switched] or
    [already_active], the second one acts on the state the first one
    left, and the source at the end is the target of the second. *)
Theorem pending_switches_run_in_turn q1 env1 q2 env2 w :
  env_ok env1 = true → env_ok env2 = true →
  ∃ res1 res2 w',
    serve [(q1, env1); (q2, env2)] w = ([OK res1; OK res2], w')
    ∧ (res1, res2)
      = ((switch_to (target q1) (now env1) (datasource w)).1,
         (switch_to (target q2) (now env2)
            (switch_to (target q1) (now env1) (datasource w)).2).1)
    ∧ (status res1 = "switched" ∨ status res1 = "already_active")
    ∧ (status res2 = "switched" ∨ status res2 = "already_active")
    ∧ current_source (datasource w') = target q2.
Proof.
  intros H1 H2. cbn [serve].
  destruct (handle_ok q1 env1 w H1) as (k1 & r1 & ->).
  destruct (handle_ok q2 env2 (mkWorld (switch_to (target q1) (now env1) (datasource w)).2 k1 r1) H2)
    as (k2 & r2 & ->).
  cbn [datasource].
  do 3 eexists. split; [reflexivity|]. split; [reflexivity|].
  split; [|split].
  - destruct (switch_to_status (target q1) (now env1) (datasource w)); auto.
  - destruct (switch_to_status (target q2) (now env2)
                (switch_to (target q1) (now env1) (datasource w)).2); auto.
  - apply switch_to_current.
Qed.

Lemma pending_switches_run_in_turn_witness :
  ∃ res1 res2 w',
    serve
      [ (SwitchLake, mkEnv 1700000000000000 true true true true (Some []) [] true);
        (SwitchRds, mkEnv 1700000000000100 false true true true None [] true) ]
      (mkWorld (mk RDS (Some 1600000000000000)) KafkaService.init RedisService.empty)
    = ([OK res1; OK res2], w')
    ∧ current_source (datasource w') = RDS.
Proof.
  destruct (pending_switches_run_in_turn
              SwitchLake (mkEnv 1700000000000000 true true true true (Some []) [] true)
              SwitchRds (mkEnv 1700000000000100 false true true true None [] true)
              (mkWorld (mk RDS (Some 1600000000000000)) KafkaService.init
                 RedisService.empty) eq_refl eq_refl)
    as (res1 & res2 & w' & E & _ & _ & _ & Hsrc).
  exists res1, res2, w'. split; [exact E | exact Hsrc].
Defined.

(** C1 as stated fails: a switch to the failover store and a switch back
    to the lake are pending on the initial state. The later one is not
    rejected: both answer 200 with [switched], and the router ends in a
    state that neither switch alone produces. *)
Lemma later_switch_is_not_rejected :
  serve
    [ (SwitchRds, mkEnv 1700000000000000 true true true true (Some []) [] true);
      (SwitchLake, mkEnv 1700000000000100 true true true true (Some []) [] true) ]
    (mkWorld DataSourceService.init KafkaService.init RedisService.empty)
  = ([ OK (Switched LAKE RDS 1700000000000000);
       OK (Switched RDS LAKE 1700000000000100) ],
     mkWorld (mk LAKE (Some 1700000000000100))
       (KafkaService.mk true true 0 3 (Some KafkaService.new_handler) false)
       RedisService.empty)
  ∧ datasource
      (handle SwitchRds
         (mkEnv 1700000000000000 true true true true (Some []) [] true)
         (mkWorld DataSourceService.init KafkaService.init RedisService.empty)).2
    = mk RDS (Some 1700000000000000)
  ∧ datasource
      (handle SwitchLake
         (mkEnv 1700000000000100 true true true true (Some []) [] true)
         (mkWorld DataSourceService.init KafkaService.init RedisService.empty)).2
    = mk LAKE None.
Proof. repeat split. Qed.

End Switches.

(** * Further properties of the services *)

(** ** The cache: writes and reads *)

Section CacheRoundTrip.

Import RedisService SyncService.

Implicit Types (r : RedisService.t) (fs : list bool) (uid : pyval).

Lemma str_of_Z_inj (a b : Z) : str_of_Z a = str_of_Z b → a = b.
Proof.
  unfold str_of_Z. intros H. apply DecimalZ.to_int_inj.
  assert (E : Some (Z.to_int a) = Some (Z.to_int b))
    by (rewrite <- !NilEmpty.isi; congruence).
  by injection E.
Qed.

Lemma user_key_int_inj (a b : Z) : user_key (PInt a) = user_key (PInt b) → a = b.
Proof. intros H. apply user_key_inj in H. by apply str_of_Z_inj. Qed.

Lemma dict_truthy_union_insert {A} (k : string) (v : A) (d1 d2 : gmap string A) :
  dict_truthy (<[k := v]> d1 ∪ d2) = true.
Proof. rewrite <- insert_union_l. apply dict_truthy_insert. Qed.

Lemma storable_encode (v : pyval) :
  storable v = true → encode v = Some (py_str v) ∧ stored v = PStr (py_str v).
Proof. unfold storable, stored. by destruct v. Qed.

Lemma hgetall_insert (ids : gset string) (hs : gmap string (gmap string string))
    (key : string) (h : gmap string string) :
  hgetall (mk ids (<[key := h]> hs)) key = h.
Proof. unfold hgetall. simpl. by rewrite lookup_insert_eq. Qed.

Lemma hgetall_add_same r uid tok plat dev :
  storable tok = true → storable plat = true → storable dev = true →
  hgetall (add_user_data false r uid tok plat dev).2 (user_key uid)
  = <["consumer_token" := py_str tok]>
      (<["platform" := py_str plat]> (<["device_id" := py_str dev]> ∅))
    ∪ hgetall r (user_key uid).
Proof.
  intros [Ht _]%storable_encode [Hp _]%storable_encode [Hd _]%storable_encode.
  unfold add_user_data. rewrite Ht, Hp, Hd.
  unfold hgetall at 1. simpl. by rewrite lookup_insert_eq.
Qed.

Lemma hgetall_add_other fault r uid tok plat dev key :
  key ≠ user_key uid →
  hgetall (add_user_data fault r uid tok plat dev).2 key = hgetall r key.
Proof. intros H. unfold hgetall. by rewrite add_user_data_other. Qed.

Lemma get_user_data_after_add r (user_id : Z) (tok plat dev : pyval) :
  storable tok = true → storable plat = true → storable dev = true →
  get_user_data false (add_user_data false r (PInt user_id) tok plat dev).2 user_id
  = Some (user_record user_id (stored tok) (stored plat) (stored dev)).
Proof.
  intros Ht Hp Hd.
  unfold get_user_data. rewrite hgetall_add_same, dict_truthy_union_insert by done.
  cbn [negb]. unfold dict_get, user_record.
  rewrite !(lookup_union_l' _ _ _) by (eexists; reflexivity).
  apply storable_encode in Ht as [_ ->]. apply storable_encode in Hp as [_ ->].
  apply storable_encode in Hd as [_ ->]. reflexivity.
Qed.

Lemma user_exists_after_add r uid (tok plat dev : pyval) :
  (add_user_data false r uid tok plat dev).1 = true →
  user_exists false (add_user_data false r uid tok plat dev).2 uid = true.
Proof.
  intros Hok. apply user_exists_true. split; [reflexivity|].
  rewrite add_user_data_members, Hok.
  apply elem_of_union_l. by apply elem_of_singleton.
Qed.

(** X1. A record written for an integer id with fields the client
    accepts is read back: whatever the cache held before,
    [get_user_data] returns the id with the three fields as the strings
    Redis stores for them, and the id exists. A string is read back as
    it was written and an int as its decimal digits. *)
Theorem add_then_get_user_data r (user_id : Z) (tok plat dev : pyval) :
  storable tok = true → storable plat = true → storable dev = true →
  get_user_data false (add_user_data false r (PInt user_id) tok plat dev).2 user_id
  = Some (user_record user_id (stored tok) (stored plat) (stored dev))
  ∧ user_exists false (add_user_data false r (PInt user_id) tok plat dev).2
      (PInt user_id) = true
  ∧ (∀ s, stored (PStr s) = PStr s)
  ∧ (∀ z, stored (PInt z) = PStr (str_of_Z z)).
Proof.
  intros Ht Hp Hd. split; [by apply get_user_data_after_add|].
  split; [|by split].
  apply user_exists_after_add. by rewrite add_user_data_ok, Ht, Hp, Hd.
Qed.

Lemma add_then_get_user_data_witness :
  get_user_data false
    (add_user_data false RedisService.empty
       (PInt 5) (PStr "tok") (PInt 3) (PStr "dev")).2 5
  = Some (user_record 5 (PStr "tok") (PStr "3") (PStr "dev")).
Proof.
  exact (proj1 (add_then_get_user_data RedisService.empty 5
                  (PStr "tok") (PInt 3) (PStr "dev")
                  eq_refl eq_refl eq_refl)).
Defined.

(** X2. A write for one integer id leaves every other integer id as it
    was: its record and its existence are unchanged. *)
Theorem add_leaves_other_ids fault f r (a b : Z) (tok plat dev : pyval) :
  a ≠ b →
  get_user_data f (add_user_data fault r (PInt a) tok plat dev).2 b
  = get_user_data f r b
  ∧ user_exists f (add_user_data fault r (PInt a) tok plat dev).2 (PInt b)
    = user_exists f r (PInt b).
Proof.
  intros Hne. split.
  - unfold get_user_data. destruct f; [reflexivity|].
    rewrite hgetall_add_other; [reflexivity|].
    intros E. apply user_key_int_inj in E. congruence.
  - unfold user_exists. destruct f; [reflexivity|].
    rewrite add_user_data_members.
    destruct (add_user_data fault r (PInt a) tok plat dev).1; [|reflexivity].
    apply bool_decide_ext. split; [|apply elem_of_union_r].
    intros [H|H]%elem_of_union; [|exact H].
    apply elem_of_singleton in H. simpl in H. apply str_of_Z_inj in H. congruence.
Qed.

Lemma add_leaves_other_ids_witness :
  get_user_data false
    (add_user_data false
       (add_user_data false RedisService.empty
          (PInt 8) (PStr "t8") (PStr "ios") (PStr "d8")).2
       (PInt 7) (PStr "t7") (PStr "android") (PStr "d7")).2 8
  = get_user_data false
      (add_user_data false RedisService.empty
         (PInt 8) (PStr "t8") (PStr "ios") (PStr "d8")).2 8.
Proof.
  apply (add_leaves_other_ids false false
           (add_user_data false RedisService.empty
              (PInt 8) (PStr "t8") (PStr "ios") (PStr "d8")).2
           7 8 (PStr "t7") (PStr "android") (PStr "d7")).
  discriminate.
Defined.

Lemma add_user_data_size fault r uid (tok plat dev : pyval) :
  get_user_count false (add_user_data fault r uid tok plat dev).2
  = get_user_count false r
    + (if (add_user_data fault r uid tok plat dev).1
       then (if user_exists false r uid then 0 else 1)
       else 0).
Proof.
  unfold get_user_count, user_exists. rewrite add_user_data_members.
  destruct (add_user_data fault r uid tok plat dev).1; [|lia].
  destruct (decide (py_str uid ∈ user_ids r)) as [Hin|Hnin].
  - rewrite bool_decide_eq_true_2 by done.
    assert (E : {[py_str uid]} ∪ user_ids r = user_ids r)
      by (by apply subseteq_union_1_L, singleton_subseteq_l).
    rewrite E. lia.
  - rewrite bool_decide_eq_false_2 by done.
    rewrite size_union by (by apply disjoint_singleton_l).
    rewrite size_singleton. lia.
Qed.

(** X3. The count of users grows by one with a successful write for a
    new id, and stays as it is with a successful write for an id that
    exists and with a write that raises. *)
Theorem add_user_data_count r uid (tok plat dev : pyval) :
  get_user_count false (add_user_data false r uid tok plat dev).2
  = get_user_count false r
    + (if (add_user_data false r uid tok plat dev).1
       then (if user_exists false r uid then 0 else 1)
       else 0).
Proof. apply add_user_data_size. Qed.

(** X30. A write with a field the client refuses ([None], a [bool] or a
    container) returns [False] and leaves the cache as it was, whether
    or not the server can be reached; the step of the sync for such a
    record leaves the cache as it was too. *)
Theorem refused_write_stores_nothing r (tok plat dev : pyval) :
  storable tok && storable plat && storable dev = false →
  (∀ fault uid, add_user_data fault r uid tok plat dev = (false, r))
  ∧ (∀ (st : LoopState) (user : gmap string pyval),
       redis st = r →
       get_or user "consumer_token" (PStr "") = tok →
       get_or user "platform" (PStr "") = plat →
       get_or user "device_id" (PStr "") = dev →
       redis (sync_user st user) = r).
Proof.
  intros Hno.
  assert (Hadd : ∀ fault uid, add_user_data fault r uid tok plat dev = (false, r)).
  { intros fault uid.
    destruct (add_user_data_cases fault r uid tok plat dev)
      as [E|(t & p & d & _ & Et & Ep & Ed & _)]; [exact E|].
    unfold storable in Hno. rewrite Et, Ep, Ed in Hno. discriminate. }
  split; [exact Hadd|].
  intros st user <- <- <- <-.
  destruct (sync_user_effect st user) as [(E & _)|(_ & _ & _ & E)]; [exact E|].
  rewrite E, Hadd. reflexivity.
Qed.

Lemma refused_write_stores_nothing_witness :
  add_user_data false RedisService.empty
    (PInt 8) PNone (PStr "android") (PStr "dev8")
  = (false, RedisService.empty).
Proof.
  exact (proj1 (refused_write_stores_nothing RedisService.empty
                  PNone (PStr "android") (PStr "dev8") eq_refl) false (PInt 8)).
Defined.

End CacheRoundTrip.

(** ** What every writer of the cache preserves *)

Section Preserved.

Import RedisService SyncService.

Variable P : RedisService.t → Prop.

Hypothesis P_add : ∀ fault r (uid tok plat dev : pyval),
  P r → P (add_user_data fault r uid tok plat dev).2.

Lemma sync_user_preserves (st : LoopState) (user : gmap string pyval) :
  P (redis st) → P (redis (sync_user st user)).
Proof.
  intros H. destruct (sync_user_effect st user) as [(-> & _)|(_ & _ & _ & ->)];
    [exact H | by apply P_add].
Qed.

Lemma sync_users_preserves (users : list (gmap string pyval)) (st : LoopState) :
  P (redis st) → P (redis (sync_users users st)).
Proof.
  revert st. induction users as [|u users IH]; intros st H; [exact H|].
  apply (IH (sync_user st u)). by apply sync_user_preserves.
Qed.

Lemma initial_sync_preserves (scan : option (list TrinoService.Row))
    (fs : list bool) (r : RedisService.t) :
  P r → P (initial_sync scan fs r).1.2.
Proof.
  intros H. rewrite initial_sync_redis.
  by apply (sync_users_preserves _ (mkLoop r _ 0 0)).
Qed.

Lemma process_message_preserves (fs : list bool) (value : pyval)
    (k : KafkaService.t) (r : RedisService.t) :
  P r → P (KafkaService.process_message fs value k r).1.2.
Proof.
  intros H. destruct (process_message_effect fs value k r)
    as [->|(uid & tok & plat & dev & f & _ & ->)]; [exact H | by apply P_add].
Qed.

Lemma for_messages_preserves (fs : list bool) (vals : list pyval)
    (received : bool) (count : Z) (k : KafkaService.t) (r : RedisService.t) :
  P r → P (ConsumeLoop.for_messages fs vals received count k r).2.
Proof.
  revert fs received count k r.
  induction vals as [|value vals IH]; intros fs received count k r H; [exact H|].
  cbn [ConsumeLoop.for_messages].
  destruct (negb (KafkaService.running k)); [exact H|].
  pose proof (process_message_preserves fs value k r H) as H'.
  destruct (KafkaService.process_message fs value k r) as [[k' r'] fs'].
  by apply IH.
Qed.

Lemma iteration_redis (p : ConsumeLoop.Poll) (count : Z)
    (k : KafkaService.t) (r : RedisService.t) :
  (ConsumeLoop.iteration p count k r).2
  = (ConsumeLoop.for_messages (ConsumeLoop.faults p) (ConsumeLoop.values p)
       false count k r).2.
Proof.
  unfold ConsumeLoop.iteration.
  destruct (ConsumeLoop.for_messages _ _ _ _ _ _) as [[[[b m] c] k1] r1].
  repeat case_match; reflexivity.
Qed.

Lemma consume_loop_preserves (polls : list ConsumeLoop.Poll) (count : Z)
    (k : KafkaService.t) (r : RedisService.t) :
  P r → P (ConsumeLoop.consume_loop polls count k r).2.
Proof.
  revert count k r. induction polls as [|p polls IH]; intros count k r H;
    [exact H|].
  cbn [ConsumeLoop.consume_loop].
  destruct (negb (KafkaService.running k)); [exact H|].
  pose proof (for_messages_preserves (ConsumeLoop.faults p) (ConsumeLoop.values p)
                false count k r H) as H'.
  rewrite <- iteration_redis in H'.
  destruct (ConsumeLoop.iteration p count k r) as [[c' k'] r'].
  destruct (_ >=? _); [exact H' | by apply IH].
Qed.

End Preserved.

Section CacheInvariant.

Import RedisService SyncService.

Implicit Types (r : RedisService.t) (fs : list bool) (uid : pyval).

Lemma cache_consistent_empty : cache_consistent RedisService.empty.
Proof.
  intros s. unfold hgetall. simpl. rewrite lookup_empty. simpl.
  split; [set_solver | discriminate].
Qed.

Lemma cache_consistent_add fault r uid (tok plat dev : pyval) :
  cache_consistent r → cache_consistent (add_user_data fault r uid tok plat dev).2.
Proof.
  intros Hc.
  destruct (add_user_data_cases fault r uid tok plat dev)
    as [->|(t & p & d & _ & _ & _ & _ & E)]; [exact Hc|].
  intros s. destruct (decide (s = py_str uid)) as [->|Hne].
  - rewrite E. change ("user:" +:+ py_str uid) with (user_key uid).
    cbn [snd user_ids]. rewrite hgetall_insert, dict_truthy_union_insert.
    split; [done|]. intros _. apply elem_of_union_l. by apply elem_of_singleton.
  - rewrite hgetall_add_other.
    + rewrite <- (Hc s), add_user_data_members.
      destruct (add_user_data fault r uid tok plat dev).1; [|tauto].
      rewrite elem_of_union, elem_of_singleton. tauto.
    + unfold user_key. intros E'. apply Hne. injection E' as E'. exact E'.
Qed.

Lemma get_user_data_is_Some r (user_id : Z) :
  is_Some (get_user_data false r user_id)
  ↔ dict_truthy (hgetall r (user_key (PInt user_id))) = true.
Proof.
  unfold get_user_data.
  destruct (dict_truthy (hgetall r _)); simpl; split; eauto; try discriminate.
  intros [? ?]. discriminate.
Qed.

(** X4. The set of ids and the hashes stay in step under every writer
    (a write, one sync, one event, the consumer loop), starting from the
    empty cache; and while they are, the existence check and the read
    of an id agree. *)
Theorem cache_consistency :
  cache_consistent RedisService.empty
  ∧ (∀ fault r uid (tok plat dev : pyval),
       cache_consistent r →
       cache_consistent (add_user_data fault r uid tok plat dev).2)
  ∧ (∀ (scan : option (list TrinoService.Row)) fs r,
       cache_consistent r → cache_consistent (initial_sync scan fs r).1.2)
  ∧ (∀ fs (value : pyval) (k : KafkaService.t) r,
       cache_consistent r →
       cache_consistent (KafkaService.process_message fs value k r).1.2)
  ∧ (∀ (polls : list ConsumeLoop.Poll) (k : KafkaService.t) r,
       cache_consistent r →
       cache_consistent (ConsumeLoop.consume_messages polls k r).2)
  ∧ (∀ r (user_id : Z),
       cache_consistent r →
       (user_exists false r (PInt user_id) = true
        ↔ is_Some (get_user_data false r user_id))).
Proof.
  split; [apply cache_consistent_empty|].
  split; [apply cache_consistent_add|].
  split; [intros scan fs r; apply initial_sync_preserves, cache_consistent_add|].
  split; [intros fs value k r; apply process_message_preserves, cache_consistent_add|].
  split; [intros polls k r; apply consume_loop_preserves, cache_consistent_add|].
  intros r user_id Hc.
  rewrite get_user_data_is_Some, user_exists_true. unfold user_key. simpl.
  rewrite (Hc (str_of_Z user_id)). tauto.
Qed.

Lemma cache_consistency_witness :
  user_exists false
    (initial_sync (Some [(PInt 7, PStr "tok", PStr "ios", PStr "dev")]) []
       RedisService.empty).1.2 (PInt 7) = true
  ↔ is_Some
      (get_user_data false
         (initial_sync (Some [(PInt 7, PStr "tok", PStr "ios", PStr "dev")]) []
            RedisService.empty).1.2 7).
Proof.
  destruct cache_consistency as (H0 & _ & Hsync & _ & _ & Hagree).
  apply Hagree, Hsync, H0.
Defined.

Lemma sync_users_all_present (users : list (gmap string pyval)) (st : LoopState) :
  no_faults (faults st) →
  (∀ user, user ∈ users →
     cache_exists (redis st) (get_or user "user_id" PNone) = true) →
  redis (sync_users users st) = redis st
  ∧ added_count (sync_users users st) = added_count st
  ∧ skipped_count (sync_users users st)
    = skipped_count st + Z.of_nat (length users).
Proof.
  revert st. induction users as [|u users IH]; intros st Hnf Hall.
  { simpl. repeat split; lia. }
  cbn [sync_users fold_left]. fold (sync_users users (sync_user st u)).
  destruct (next_fault_no_faults _ Hnf) as [E1 _].
  assert (Hu : user_exists (next_fault (faults st)).1 (redis st)
                 (get_or u "user_id" PNone) = true).
  { rewrite E1. apply Hall. left. }
  destruct (sync_user_effect st u) as [(Er & Ea & Es & _)|(Hno & _)];
    [|congruence].
  destruct (IH (sync_user st u)) as (Er' & Ea' & Es').
  - by apply sync_user_faults.
  - intros user Hin. rewrite Er. apply Hall. by right.
  - rewrite Er', Ea', Es', Er, Ea, Es. cbn [length].
    repeat split; lia.
Qed.

Lemma sync_users_size (users : list (gmap string pyval)) (st : LoopState) :
  no_faults (faults st) →
  (∀ user, user ∈ users →
     storable_user user
     ∨ cache_exists (redis st) (get_or user "user_id" PNone) = true) →
  get_user_count false (redis (sync_users users st)) - added_count (sync_users users st)
  = get_user_count false (redis st) - added_count st.
Proof.
  revert st. induction users as [|u users IH]; intros st Hnf Hacc; [reflexivity|].
  cbn [sync_users fold_left]. fold (sync_users users (sync_user st u)).
  rewrite IH.
  - destruct (next_fault_no_faults _ Hnf) as [E1 Hnf1].
    destruct (next_fault_no_faults _ Hnf1) as [E2 _].
    destruct (sync_user_effect st u) as [(-> & -> & _)|(Hno & -> & _ & ->)];
      [reflexivity|].
    rewrite E1 in Hno. rewrite E2, add_user_data_size, add_user_data_ok, Hno.
    destruct (Hacc u) as [(-> & -> & ->)|Hex]; [left | simpl; lia |].
    unfold cache_exists in Hex. congruence.
  - by apply sync_user_faults.
  - intros user Hin. destruct (Hacc user) as [Hst|Hex]; [by right | by left |].
    right. eapply cache_exists_keeps; [apply sync_user_keeps | exact Hex].
Qed.

Lemma writes_accepted_users (rows : list TrinoService.Row) r :
  writes_accepted r rows →
  ∀ user, user ∈ TrinoService.user_of_row <$> rows →
    storable_user user ∨ cache_exists r (get_or user "user_id" PNone) = true.
Proof.
  intros Hacc user (row & -> & Hin)%list_elem_of_fmap.
  rewrite get_or_user_id.
  destruct (Hacc row Hin) as [Hst|Hex]; [left; by apply storable_user_of_row | by right].
Qed.

Lemma initial_sync_report (rows : list TrinoService.Row) fs r :
  rows ≠ [] →
  (initial_sync (Some rows) fs r).1.1
  = Return
      (Completed
         (added_count (sync_users (TrinoService.user_of_row <$> rows)
                         (mkLoop r (next_fault fs).2 0 0)))
         (skipped_count (sync_users (TrinoService.user_of_row <$> rows)
                           (mkLoop r (next_fault fs).2 0 0)))
         (get_user_count
            (next_fault
               (faults (sync_users (TrinoService.user_of_row <$> rows)
                          (mkLoop r (next_fault fs).2 0 0)))).1
            (redis (sync_users (TrinoService.user_of_row <$> rows)
                      (mkLoop r (next_fault fs).2 0 0))))).
Proof.
  intros Hne. unfold initial_sync. destruct (next_fault fs) as [f0 fs0].
  destruct rows as [|row rows]; [done|].
  cbn [TrinoService.fetch_all_users map fmap list_fmap snd].
  destruct (next_fault (faults _)) as [f1 fs1]. reflexivity.
Qed.

Lemma sync_users_faults (users : list (gmap string pyval)) (st : LoopState) :
  no_faults (faults st) → no_faults (faults (sync_users users st)).
Proof.
  revert st. induction users as [|u users IH]; intros st H; [exact H|].
  apply (IH (sync_user st u)). by apply sync_user_faults.
Qed.

(** X5. When no Redis call raises (the server answers every call and
    no write is refused by the client), the numbers a sync logs fit
    together: the total is the count before the sync plus the number
    added, and added plus skipped is the number of scanned rows. *)
Theorem sync_report_is_consistent (rows : list TrinoService.Row) fs r
    (added skipped final_count : Z) :
  no_faults fs →
  writes_accepted r rows →
  (initial_sync (Some rows) fs r).1.1 = Return (Completed added skipped final_count) →
  final_count = get_user_count false r + added
  ∧ added + skipped = Z.of_nat (length rows).
Proof.
  intros Hnf Hacc Hrep.
  destruct rows as [|row rows].
  { unfold initial_sync in Hrep. destruct (next_fault fs). discriminate. }
  rewrite initial_sync_report in Hrep by done.
  set (st0 := mkLoop r (next_fault fs).2 0 0) in *.
  set (users := TrinoService.user_of_row <$> (row :: rows)) in *.
  assert (Hnf0 : no_faults (faults st0)) by (by apply next_fault_no_faults).
  pose proof (sync_users_faults users st0 Hnf0) as Hnf1.
  destruct (next_fault_no_faults _ Hnf1) as [E _]. rewrite E in Hrep.
  pose proof (sync_users_size users st0 Hnf0 (writes_accepted_users _ _ Hacc))
    as Hsize.
  destruct (sync_users_counts users st0) as (Hsum & _).
  unfold users in Hsum at 3. rewrite length_fmap in Hsum.
  change (redis st0) with r in Hsize.
  change (added_count st0) with 0 in Hsize, Hsum.
  change (skipped_count st0) with 0 in Hsum.
  remember (sync_users users st0) as st1 eqn:Est1. clear Est1.
  injection Hrep as Ha Hs Hf. unfold get_user_count in *. split; lia.
Qed.

Lemma sync_report_is_consistent_witness :
  no_faults []
  ∧ (initial_sync
       (Some [(PInt 7, PStr "tok", PStr "ios", PStr "dev");
              (PInt 8, PStr "t8", PStr "android", PStr "dev8");
              (PInt 9, PStr "t9", PInt 3, PStr "dev9")])
       []
       (add_user_data false RedisService.empty
          (PInt 7) (PStr "old") (PStr "ios") (PStr "dev")).2).1.1
    = Return (Completed 2 1 3)
  ∧ (3 : Z) = get_user_count false
      (add_user_data false RedisService.empty
         (PInt 7) (PStr "old") (PStr "ios") (PStr "dev")).2 + 2.
Proof.
  assert (H : no_faults []) by (intros f Hf; by apply elem_of_nil in Hf).
  split; [exact H|]. split; [reflexivity|].
  apply (sync_report_is_consistent
           [(PInt 7, PStr "tok", PStr "ios", PStr "dev");
            (PInt 8, PStr "t8", PStr "android", PStr "dev8");
            (PInt 9, PStr "t9", PInt 3, PStr "dev9")]
           []
           (add_user_data false RedisService.empty
              (PInt 7) (PStr "old") (PStr "ios") (PStr "dev")).2
           2 1 3 H).
  - intros row Hin. left.
    repeat (apply elem_of_cons in Hin as [->|Hin]; [by repeat split|]).
    by apply elem_of_nil in Hin.
  - reflexivity.
Defined.

(** X6. A sync is idempotent when no Redis call raises (the server
    answers every call and no write is refused by the client): run again
    on the same scan it leaves the cache as the first run left it, adds
    nothing and skips every row. *)
Theorem sync_twice_adds_nothing (rows : list TrinoService.Row) fs1 fs2 r :
  no_faults fs1 → no_faults fs2 → rows ≠ [] →
  writes_accepted r rows →
  (initial_sync (Some rows) fs2 (initial_sync (Some rows) fs1 r).1.2).1.2
  = (initial_sync (Some rows) fs1 r).1.2
  ∧ ∃ final_count,
      (initial_sync (Some rows) fs2 (initial_sync (Some rows) fs1 r).1.2).1.1
      = Return (Completed 0 (Z.of_nat (length rows)) final_count).
Proof.
  intros Hnf1 Hnf2 Hne Hacc.
  set (r1 := (initial_sync (Some rows) fs1 r).1.2).
  assert (Hall : ∀ user, user ∈ TrinoService.user_of_row <$> rows →
            cache_exists r1 (get_or user "user_id" PNone) = true).
  { intros user Hin. unfold r1. rewrite initial_sync_redis. simpl.
    apply (sync_users_members _ (mkLoop r _ 0 0)).
    - simpl. by apply next_fault_no_faults.
    - exact Hin.
    - by apply (writes_accepted_users rows r). }
  assert (Hnf0 : no_faults (faults (mkLoop r1 (next_fault fs2).2 0 0)))
    by (by apply next_fault_no_faults).
  destruct (sync_users_all_present _ (mkLoop r1 (next_fault fs2).2 0 0) Hnf0 Hall)
    as (Er & Ea & Es).
  split.
  - rewrite initial_sync_redis. exact Er.
  - rewrite initial_sync_report by done. rewrite Ea, Es.
    simpl. rewrite length_fmap. eexists. reflexivity.
Qed.

Lemma sync_twice_adds_nothing_witness :
  (initial_sync (Some [(PInt 7, PStr "tok", PStr "ios", PStr "dev")]) []
     (initial_sync (Some [(PInt 7, PStr "tok", PStr "ios", PStr "dev")]) []
        RedisService.empty).1.2).1.2
  = (initial_sync (Some [(PInt 7, PStr "tok", PStr "ios", PStr "dev")]) []
       RedisService.empty).1.2.
Proof.
  assert (H : no_faults []) by (intros f Hf; by apply elem_of_nil in Hf).
  apply (sync_twice_adds_nothing
           [(PInt 7, PStr "tok", PStr "ios", PStr "dev")] [] []
           RedisService.empty H H).
  - discriminate.
  - intros row Hin. left.
    repeat (apply elem_of_cons in Hin as [->|Hin]; [by repeat split|]).
    by apply elem_of_nil in Hin.
Defined.

End CacheInvariant.

(** ** The consumer: events, the loop and the life cycle *)

Section Consumer.

Import KafkaService ConsumeLoop.

Implicit Types (k : KafkaService.t) (r : RedisService.t) (fs : list bool)
  (value : pyval) (polls : list Poll) (p : Poll).

Lemma set_errors_set_errors (n m : Z) k :
  set_errors n (set_errors m k) = set_errors n k.
Proof. reflexivity. Qed.

Lemma set_errors_same k : set_errors (consecutive_errors k) k = k.
Proof. by destruct k. Qed.

(** The row image decides what [process_message] does with the event. *)
Lemma process_message_event fs value k r (row : list (string * pyval)) :
  event_row value = Some row →
  KafkaService.process_message fs value k r
  = (set_errors 0 k,
     (if negb (RedisService.user_exists (SyncService.next_fault fs).1 r
                 (row_get row "user_id" PNone))
      then (RedisService.add_user_data
              (SyncService.next_fault (SyncService.next_fault fs).2).1 r
              (row_get row "user_id" PNone)
              (row_get row "consumer_token" (PStr ""))
              (row_get row "platform" (PStr ""))
              (row_get row "device_id" (PStr ""))).2
      else r),
     (if negb (RedisService.user_exists (SyncService.next_fault fs).1 r
                 (row_get row "user_id" PNone))
      then (SyncService.next_fault (SyncService.next_fault fs).2).2
      else (SyncService.next_fault fs).2)).
Proof.
  unfold event_row. intros H.
  destruct value as [| | | | |v]; try discriminate.
  destruct (assoc "payload" v) as [payload|] eqn:Ep; simpl in H.
  - destruct payload as [| | | | |pl]; try discriminate.
    destruct (assoc "after" pl) as [[| | | | |a]|] eqn:Ea; try discriminate.
    destruct (assoc "user_id" a) as [uid|] eqn:Eu; [|discriminate].
    injection H as <-.
    unfold KafkaService.process_message, bind, get_default, contains, row_get.
    rewrite Ep, Ea. cbn [truthy]. destruct a as [|kv a]; [discriminate|].
    rewrite Eu. unfold default. cbn [from_option id].
    destruct (SyncService.next_fault fs) as [f1 fs1]. cbn [fst snd].
    destruct (negb (RedisService.user_exists f1 r uid)); [|reflexivity].
    destruct (SyncService.next_fault fs1) as [f2 fs2].
    repeat case_match; reflexivity.
  - discriminate.
Qed.

Lemma process_message_service fs value k r :
  (KafkaService.process_message fs value k r).1.1 = k
  ∨ (KafkaService.process_message fs value k r).1.1 = set_errors 0 k
  ∨ (KafkaService.process_message fs value k r).1.1
    = set_errors (consecutive_errors k + 1) k.
Proof.
  unfold KafkaService.process_message, bind.
  destruct value; auto; repeat case_match; simpl; auto.
Qed.

(** X7. An event that carries a row with a [user_id] resets the error
    counter whatever the Redis calls do, also when the write raises; a
    value that is neither [None] nor an object is a processing error
    that leaves the cache alone; and no message does anything to the
    service but leave it, reset the counter or add one to it. *)
Theorem process_message_error_counter fs value k r :
  (∀ row, event_row value = Some row →
     (KafkaService.process_message fs value k r).1.1 = set_errors 0 k)
  ∧ (match value with
     | PNone | PDict _ => True
     | _ => KafkaService.process_message fs value k r
            = (set_errors (consecutive_errors k + 1) k, r, fs)
     end)
  ∧ ((KafkaService.process_message fs value k r).1.1 = k
     ∨ (KafkaService.process_message fs value k r).1.1 = set_errors 0 k
     ∨ (KafkaService.process_message fs value k r).1.1
       = set_errors (consecutive_errors k + 1) k).
Proof.
  split; [|split].
  - intros row H. by rewrite (process_message_event _ _ _ _ _ H).
  - by destruct value.
  - apply process_message_service.
Qed.

Lemma process_message_error_counter_witness :
  (KafkaService.process_message [false; true]
     (PDict [("payload",
              PDict [("after", PDict [("user_id", PInt 7); ("platform", PStr "ios")])])])
     (mk true true 2 3 None false) RedisService.empty).1.1
  = mk true true 0 3 None false.
Proof.
  apply (proj1 (process_message_error_counter [false; true]
                  (PDict [("payload",
                           PDict [("after",
                                   PDict [("user_id", PInt 7);
                                          ("platform", PStr "ios")])])])
                  (mk true true 2 3 None false) RedisService.empty)
           [("user_id", PInt 7); ("platform", PStr "ios")]).
  reflexivity.
Defined.

(** X8. A change event for an integer id that the cache does not hold
    makes the id readable: when no Redis call raises (the server answers
    and the client accepts the three fields of the row),
    [get_user_data] then returns the fields of the row as the strings
    Redis stores for them, with the empty string for a field the row
    lacks. *)
Theorem event_is_readable_after_processing fs value k r
    (row : list (string * pyval)) (user_id : Z) :
  event_row value = Some row →
  row_get row "user_id" PNone = PInt user_id →
  no_faults fs →
  storable (row_get row "consumer_token" (PStr "")) = true →
  storable (row_get row "platform" (PStr "")) = true →
  storable (row_get row "device_id" (PStr "")) = true →
  cache_exists r (PInt user_id) = false →
  RedisService.get_user_data false
    (KafkaService.process_message fs value k r).1.2 user_id
  = Some (user_record user_id
            (stored (row_get row "consumer_token" (PStr "")))
            (stored (row_get row "platform" (PStr "")))
            (stored (row_get row "device_id" (PStr "")))).
Proof.
  intros Hrow Hid Hnf Ht Hp Hd Hnew.
  rewrite (process_message_event _ _ _ _ _ Hrow). cbn [fst snd].
  destruct (next_fault_no_faults _ Hnf) as [E1 Hnf1].
  destruct (next_fault_no_faults _ Hnf1) as [E2 _].
  rewrite E1, E2, Hid. unfold cache_exists in Hnew. rewrite Hnew. cbn [negb].
  by apply get_user_data_after_add.
Qed.

Lemma event_is_readable_after_processing_witness :
  RedisService.get_user_data false
    (KafkaService.process_message []
       (PDict [("payload",
                PDict [("after",
                        PDict [("user_id", PInt 7); ("platform", PStr "ios");
                               ("device_id", PInt 42)])])])
       KafkaService.init RedisService.empty).1.2 7
  = Some (user_record 7 (PStr "") (PStr "ios") (PStr "42")).
Proof.
  apply (event_is_readable_after_processing []
           (PDict [("payload",
                    PDict [("after",
                            PDict [("user_id", PInt 7); ("platform", PStr "ios");
                                   ("device_id", PInt 42)])])])
           KafkaService.init RedisService.empty
           [("user_id", PInt 7); ("platform", PStr "ios"); ("device_id", PInt 42)] 7);
    try reflexivity.
  intros f Hf. by apply elem_of_nil in Hf.
Defined.

(** *** The loop *)

Lemma process_message_fields fs value k r :
  (KafkaService.process_message fs value k r).1.1
  = set_errors (consecutive_errors (KafkaService.process_message fs value k r).1.1) k.
Proof.
  destruct (process_message_service fs value k r) as [->|[->| ->]];
    [by rewrite set_errors_same | reflexivity | reflexivity].
Qed.

Lemma for_messages_fields fs (vals : list pyval) (received : bool) (count : Z) k r :
  (for_messages fs vals received count k r).1.2
  = set_errors (consecutive_errors (for_messages fs vals received count k r).1.2) k.
Proof.
  revert fs received count k r.
  induction vals as [|value vals IH]; intros fs received count k r;
    cbn [for_messages].
  - by rewrite set_errors_same.
  - destruct (negb (running k)); [by rewrite set_errors_same|].
    pose proof (process_message_fields fs value k r) as H.
    destruct (KafkaService.process_message fs value k r) as [[k' r'] fs'].
    simpl in H. rewrite (IH fs' true 0 k' r') at 1. rewrite H at 2.
    apply set_errors_set_errors.
Qed.

Lemma iteration_fields p (count : Z) k r :
  (iteration p count k r).1.2
  = set_errors (consecutive_errors (iteration p count k r).1.2) k.
Proof.
  unfold iteration.
  pose proof (for_messages_fields (faults p) (values p) false count k r) as H.
  destruct (for_messages _ _ _ _ _ _) as [[[[b m] c] k1] r1]. simpl in H.
  repeat case_match; simpl; try exact H; rewrite H at 2; reflexivity.
Qed.

Lemma iteration_idle p (count : Z) k r :
  values p = [] → raises p = false →
  iteration p count k r
  = if (count + 1 >=? 3) && (consecutive_errors k >? 0)
    then (count + 1, set_errors (consecutive_errors k + 1) k, r)
    else (count + 1, k, r).
Proof. intros Hv Hr. unfold iteration. by rewrite Hv, Hr. Qed.

Lemma iteration_raising p (count : Z) k r :
  values p = [] → raises p = true →
  iteration p count k r = (count, set_errors (consecutive_errors k + 1) k, r).
Proof. intros Hv Hr. unfold iteration. by rewrite Hv, Hr. Qed.

Lemma health_check_at_max k :
  max_consecutive_errors k ≤ consecutive_errors k → health_check k = false.
Proof.
  intros H. unfold health_check.
  replace (consecutive_errors k <? max_consecutive_errors k) with false
    by (symmetry; by apply Z.ltb_ge).
  by rewrite andb_false_r.
Qed.

Lemma consume_loop_broke polls (count count' : Z) k k' r r' :
  consume_loop polls count k r = (Broke, count', k', r') →
  max_consecutive_errors k' ≤ consecutive_errors k'
  ∧ k' = set_errors (consecutive_errors k') k
  ∧ running k' = true
  ∧ health_check k' = false
  ∧ start_consuming k' = k'.
Proof.
  revert count k r. induction polls as [|p polls IH]; intros count k r;
    cbn [consume_loop].
  { by destruct (running k). }
  destruct (running k) eqn:Hrun; cbn [negb]; [|discriminate].
  pose proof (iteration_fields p count k r) as Hf.
  destruct (iteration p count k r) as [[c1 k1] r1]. simpl in Hf.
  destruct (consecutive_errors k1 >=? max_consecutive_errors k1) eqn:T.
  - intros [= <- <- <-]. rewrite Z.geb_leb in T. apply Z.leb_le in T.
    assert (R : running k1 = true) by (rewrite Hf; exact Hrun).
    repeat split; try done.
    + by apply health_check_at_max.
    + unfold start_consuming. by rewrite R.
  - intros H. destruct (IH _ _ _ H) as (H1 & H2 & H3 & H4 & H5).
    repeat split; try done. rewrite H2, Hf. reflexivity.
Qed.

(** X9. When the loop ends on the error check, the error count is at or
    above the maximum and nothing else of the service has changed: the
    running flag is still set, so the health check fails and
    [start_consuming] does nothing. *)
Theorem loop_exit_on_errors polls (count count' : Z) k k' r r' :
  consume_loop polls count k r = (Broke, count', k', r') →
  max_consecutive_errors k' ≤ consecutive_errors k'
  ∧ k' = set_errors (consecutive_errors k') k
  ∧ running k' = true
  ∧ health_check k' = false
  ∧ start_consuming k' = k'.
Proof. apply consume_loop_broke. Qed.

Lemma loop_exit_on_errors_witness :
  health_check
    (set_errors 3 (mk true true 0 3 None false)) = false
  ∧ start_consuming (set_errors 3 (mk true true 0 3 None false))
    = set_errors 3 (mk true true 0 3 None false).
Proof.
  destruct (loop_exit_on_errors
              [mkPoll [] true []; mkPoll [] true []; mkPoll [] true []]
              0 0 (mk true true 0 3 None false)
              (set_errors 3 (mk true true 0 3 None false))
              RedisService.empty RedisService.empty eq_refl)
    as (_ & _ & _ & H4 & H5).
  split; [exact H4 | exact H5].
Defined.

(** X10. Polls that raise without delivering a message end the loop as
    soon as the error count reaches the maximum: with as many of them
    as the count is short of it, the loop breaks with the count at the
    maximum and the cache untouched. *)
Theorem failing_polls_end_the_loop polls (count : Z) k r :
  running k = true →
  consecutive_errors k < max_consecutive_errors k →
  (∀ p, p ∈ polls → values p = [] ∧ raises p = true) →
  max_consecutive_errors k - consecutive_errors k ≤ Z.of_nat (length polls) →
  consume_loop polls count k r
  = (Broke, count, set_errors (max_consecutive_errors k) k, r).
Proof.
  revert k. induction polls as [|p polls IH]; intros k Hrun Hlt Hall Hlen.
  { simpl in Hlen. lia. }
  cbn [consume_loop]. rewrite Hrun. cbn [negb].
  destruct (Hall p) as [Hv Hr]; [left|].
  rewrite (iteration_raising _ _ _ _ Hv Hr). cbn [consecutive_errors set_errors
    max_consecutive_errors].
  destruct (consecutive_errors k + 1 >=? max_consecutive_errors k) eqn:T.
  - rewrite Z.geb_leb in T. apply Z.leb_le in T.
    by replace (consecutive_errors k + 1) with (max_consecutive_errors k) by lia.
  - rewrite Z.geb_leb in T. apply Z.leb_gt in T.
    rewrite IH; [reflexivity | exact Hrun | simpl; lia | |].
    + intros q Hq. apply Hall. by right.
    + cbn [length] in Hlen. simpl. lia.
Qed.

Lemma failing_polls_end_the_loop_witness :
  consume_loop [mkPoll [] true []; mkPoll [] true []; mkPoll [] true []] 0
    (mk true true 0 3 None false) RedisService.empty
  = (Broke, 0, mk true true 3 3 None false, RedisService.empty).
Proof.
  apply (failing_polls_end_the_loop
           [mkPoll [] true []; mkPoll [] true []; mkPoll [] true []] 0
           (mk true true 0 3 None false) RedisService.empty);
    [reflexivity | simpl; lia | | simpl; lia].
  intros p Hp.
  repeat (apply elem_of_cons in Hp as [->|Hp]; [split; reflexivity|]).
  by apply elem_of_nil in Hp.
Defined.

(** X11. An idle stream does not trip a service without errors: polls
    that deliver nothing and do not raise leave the service and the
    cache as they were, however many there are; only the idle count
    grows. *)
Theorem idle_polls_without_errors polls (count : Z) k r :
  running k = true →
  consecutive_errors k = 0 →
  0 < max_consecutive_errors k →
  (∀ p, p ∈ polls → values p = [] ∧ raises p = false) →
  consume_loop polls count k r
  = (Polling, count + Z.of_nat (length polls), k, r).
Proof.
  intros Hrun He Hmax. revert count.
  induction polls as [|p polls IH]; intros count Hall; cbn [consume_loop].
  { rewrite Hrun. simpl. by rewrite Z.add_0_r. }
  rewrite Hrun. cbn [negb].
  destruct (Hall p) as [Hv Hr]; [left|].
  rewrite (iteration_idle _ _ _ _ Hv Hr), He. cbn [Z.gtb Z.compare].
  rewrite andb_false_r.
  replace (consecutive_errors k >=? max_consecutive_errors k) with false
    by (symmetry; rewrite Z.geb_leb; apply Z.leb_gt; lia).
  rewrite IH by (intros q Hq; apply Hall; by right).
  cbn [length]. do 3 f_equal. lia.
Qed.

Lemma idle_polls_without_errors_witness :
  consume_loop (repeat (mkPoll [] false []) 20) 0
    (mk true true 0 3 None false) RedisService.empty
  = (Polling, 20, mk true true 0 3 None false, RedisService.empty).
Proof.
  apply (idle_polls_without_errors (repeat (mkPoll [] false []) 20) 0
           (mk true true 0 3 None false) RedisService.empty);
    [reflexivity | reflexivity | simpl; lia |].
  intros p Hp. apply list_elem_of_In, repeat_spec in Hp. by subst.
Defined.

(** X12. An idle stream does trip a service that has an error pending:
    once three idle polls in a row are counted, every further idle poll
    adds an error, and the loop breaks with the count at the maximum. *)
Theorem idle_polls_with_errors polls (count : Z) k r :
  running k = true →
  0 < consecutive_errors k < max_consecutive_errors k →
  (∀ p, p ∈ polls → values p = [] ∧ raises p = false) →
  Z.max 0 (2 - count) + (max_consecutive_errors k - consecutive_errors k)
    ≤ Z.of_nat (length polls) →
  ∃ count',
    consume_loop polls count k r
    = (Broke, count', set_errors (max_consecutive_errors k) k, r).
Proof.
  revert count k. induction polls as [|p polls IH]; intros count k Hrun He Hall Hlen.
  { simpl in Hlen. lia. }
  cbn [consume_loop]. rewrite Hrun. cbn [negb].
  destruct (Hall p) as [Hv Hr]; [left|].
  rewrite (iteration_idle _ _ _ _ Hv Hr).
  replace (consecutive_errors k >? 0) with true
    by (symmetry; apply Z.gtb_lt; lia).
  rewrite andb_true_r. cbn [length] in Hlen.
  destruct (count + 1 >=? 3) eqn:T; rewrite Z.geb_leb in T.
  - apply Z.leb_le in T. cbn [consecutive_errors set_errors max_consecutive_errors].
    destruct (consecutive_errors k + 1 >=? max_consecutive_errors k) eqn:T2;
      rewrite Z.geb_leb in T2.
    + apply Z.leb_le in T2. eexists.
      by replace (consecutive_errors k + 1) with (max_consecutive_errors k) by lia.
    + apply Z.leb_gt in T2.
      destruct (IH (count + 1) (set_errors (consecutive_errors k + 1) k))
        as [c' Hc']; [exact Hrun | simpl; lia | | simpl; lia |].
      * intros q Hq. apply Hall. by right.
      * exists c'. rewrite Hc'. reflexivity.
  - apply Z.leb_gt in T.
    replace (consecutive_errors k >=? max_consecutive_errors k) with false
      by (symmetry; rewrite Z.geb_leb; apply Z.leb_gt; lia).
    apply IH; [exact Hrun | exact He | | lia].
    intros q Hq. apply Hall. by right.
Qed.

Lemma idle_polls_with_errors_witness :
  ∃ count',
    consume_loop (repeat (mkPoll [] false []) 4) 0
      (mk true true 1 3 None false) RedisService.empty
    = (Broke, count', mk true true 3 3 None false, RedisService.empty).
Proof.
  apply (idle_polls_with_errors (repeat (mkPoll [] false []) 4) 0
           (mk true true 1 3 None false) RedisService.empty);
    [reflexivity | simpl; lia | | simpl; lia].
  intros p Hp. apply list_elem_of_In, repeat_spec in Hp. by subst.
Defined.

(** X13. The consumer loop never takes anything out of the cache:
    whatever the polls deliver, every member, hash and field is kept. *)
Theorem consume_messages_keeps_entries polls k r :
  keeps_entries r (consume_messages polls k r).2.
Proof.
  unfold consume_messages.
  apply (consume_loop_preserves (keeps_entries r)); [|apply keeps_entries_refl].
  intros fault r0 uid tok plat dev H.
  eapply keeps_entries_trans; [exact H | apply add_user_data_keeps].
Qed.

(** *** The life cycle *)

Lemma health_check_connect k :
  0 < max_consecutive_errors k →
  health_check (connect true k).2 = running k.
Proof.
  intros H. unfold connect, _setup_warning_handler, health_check. simpl.
  destruct (warning_handler k); simpl;
    replace (0 <? max_consecutive_errors k) with true
      by (symmetry; by apply Z.ltb_lt);
    by rewrite !andb_true_r.
Qed.

(** X14. A loop that ended on the error check is not started again by
    reconnecting: after [connect] the service reports healthy, since the
    running flag was never cleared, and [start_consuming] leaves it as
    it is. *)
Theorem reconnect_after_loop_exit polls (count count' : Z) k k' r r' :
  consume_loop polls count k r = (Broke, count', k', r') →
  0 < max_consecutive_errors k →
  health_check k' = false
  ∧ health_check (connect true k').2 = true
  ∧ start_consuming (connect true k').2 = (connect true k').2.
Proof.
  intros H Hmax.
  destruct (consume_loop_broke _ _ _ _ _ _ _ H) as (_ & Hk & Hrun & Hh & _).
  assert (Hmax' : 0 < max_consecutive_errors k') by (rewrite Hk; exact Hmax).
  split; [exact Hh|]. split.
  - by rewrite health_check_connect.
  - unfold start_consuming.
    assert (R : running (connect true k').2 = true).
    { unfold connect, _setup_warning_handler. simpl.
      by destruct (warning_handler k'). }
    by rewrite R.
Qed.

Lemma reconnect_after_loop_exit_witness :
  health_check (connect true (mk true true 3 3 None false)).2 = true
  ∧ start_consuming (connect true (mk true true 3 3 None false)).2
    = (connect true (mk true true 3 3 None false)).2.
Proof.
  destruct (reconnect_after_loop_exit
              [mkPoll [] true []; mkPoll [] true []; mkPoll [] true []]
              0 0 (mk true true 0 3 None false) (mk true true 3 3 None false)
              RedisService.empty RedisService.empty eq_refl)
    as (_ & H2 & H3); [simpl; lia|].
  split; [exact H2 | exact H3].
Defined.

(** X15. Stopping, connecting and starting give a healthy service from
    any state with a positive maximum; a stopped service is unhealthy;
    and a failed [connect] changes nothing. *)
Theorem stop_connect_start_is_healthy k :
  (0 < max_consecutive_errors k →
   health_check (start_consuming (connect true (stop_consuming k)).2) = true
   ∧ consecutive_errors (start_consuming (connect true (stop_consuming k)).2) = 0)
  ∧ health_check (stop_consuming k) = false
  ∧ connect false k = (Raise "KafkaError", k).
Proof.
  split; [|split].
  - intros H. unfold stop_consuming, set_running, connect, _setup_warning_handler,
      start_consuming, health_check.
    destruct k as [c run e m h f]. simpl in *.
    assert (E : (0 <? m) = true) by (by apply Z.ltb_lt).
    destruct run, h; simpl; rewrite E; auto.
  - unfold stop_consuming, set_running, health_check.
    destruct (running k) eqn:R; simpl; [|rewrite R];
      by rewrite ?andb_false_r.
  - reflexivity.
Qed.

Lemma stop_connect_start_is_healthy_witness :
  health_check
    (start_consuming (connect true (stop_consuming (mk true true 3 3 None true))).2)
  = true.
Proof.
  apply (proj1 (stop_connect_start_is_healthy (mk true true 3 3 None true))).
  simpl. lia.
Defined.

(** X16. [connect] does not reset the anomaly window: with nine counted
    warnings before a reconnect, one more inside the window trips the
    service right after it. Only [disconnect] drops the handler, and
    the next [connect] then installs a fresh one. *)
Theorem connect_keeps_anomaly_window k (h : WarningHandler)
    (record : LogRecord) (now : Q) :
  (warning_handler k = Some h → handler_ok h → warning_count h = 9 →
   matching record = true →
   (now - last_warning_time h <= inject_Z 30)%Q →
   warning_handler (connect true k).2 = Some h
   ∧ health_check (log_record record now (connect true k).2) = false)
  ∧ warning_handler (connect true (disconnect k)).2 = Some new_handler
  ∧ log_record record now (disconnect k) = disconnect k.
Proof.
  split; [|split; reflexivity].
  intros Hh Hok H9 Hm Hin.
  assert (E : warning_handler (connect true k).2 = Some h).
  { unfold connect, _setup_warning_handler. simpl. by rewrite Hh. }
  split; [exact E|].
  unfold log_record. rewrite E.
  apply Qgtb_false in Hin.
  rewrite (emit_inside _ _ _ _ Hok Hm Hin), H9. simpl.
  apply health_check_at_max. simpl. lia.
Qed.

Lemma connect_keeps_anomaly_window_witness :
  health_check
    (log_record (mkRecord 30 "coordinator unavailable") (105 # 1)
       (connect true
          (mk true true 0 3 (Some (mkHandler 9 (100 # 1) 30 10)) false)).2)
  = false.
Proof.
  apply (proj1 (connect_keeps_anomaly_window
                  (mk true true 0 3 (Some (mkHandler 9 (100 # 1) 30 10)) false)
                  (mkHandler 9 (100 # 1) 30 10)
                  (mkRecord 30 "coordinator unavailable") (105 # 1)));
    try reflexivity.
  - unfold handler_ok. simpl. lia.
  - vm_compute. discriminate.
Defined.

End Consumer.

(** ** The race: whose answer is returned *)

Section RaceOrder.

Import ParallelFetchService.

Implicit Types (d : gmap string pyval) (r : RedisService.t)
  (table : list RDSService.Row) (race : Race) (user_id : Z).

Lemma fetch_user_from_redis_record r user_id :
  redis_has r user_id = true →
  ∃ d, fetch_user_from_redis false r user_id = Some d
     ∧ d !! "source" = Some (PStr "redis")
     ∧ is_Some (d !! "consumer_token").
Proof.
  intros H. unfold redis_has in H.
  unfold fetch_user_from_redis, RedisService.get_user_data. rewrite H. simpl.
  rewrite dict_truthy_insert. eexists. split; [reflexivity|].
  split; [reflexivity|]. eexists. reflexivity.
Qed.

Lemma fetch_user_from_rds_record table user_id :
  rds_has table user_id = true →
  ∃ d, fetch_user_from_rds false table user_id = Some d
     ∧ d !! "source" = Some (PStr "rds")
     ∧ d !! "consumer_token" = None.
Proof.
  intros H. unfold rds_has in H.
  unfold fetch_user_from_rds, RDSService.get_user_by_id.
  destruct (RDSService.fetchone table user_id); [|discriminate]. simpl.
  rewrite dict_truthy_insert. eexists. split; [reflexivity|].
  split; reflexivity.
Qed.

(** X17. The answer the race looks at first wins. When that store holds
    the id and its lookup does not raise, the result is its record,
    whatever the other store holds or does; so with the id in both
    stores the provenance, and with it the presence of
    [consumer_token], follows the order of completion. *)
Theorem first_answer_wins race r table user_id :
  (redis_wins race = true → redis_has r user_id = true →
   redis_fault race = false →
   fetch_user_parallel race r table user_id
   = fetch_user_from_redis false r user_id)
  ∧ (redis_wins race = false → rds_has table user_id = true →
     rds_fault race = false →
     fetch_user_parallel race r table user_id
     = fetch_user_from_rds false table user_id)
  ∧ (redis_has r user_id = true → rds_has table user_id = true →
     redis_fault race = false → rds_fault race = false →
     ∃ d, fetch_user_parallel race r table user_id = Some d
        ∧ d !! "source"
          = Some (PStr (if redis_wins race then "redis" else "rds"))
        ∧ (is_Some (d !! "consumer_token") ↔ redis_wins race = true)).
Proof.
  assert (A : redis_wins race = true → redis_has r user_id = true →
              redis_fault race = false →
              fetch_user_parallel race r table user_id
              = fetch_user_from_redis false r user_id).
  { intros Hw Hhas Hf.
    pose proof (fetch_user_from_redis_Some false r user_id) as T.
    rewrite Hhas in T. simpl in T.
    unfold fetch_user_parallel, redis_wins in *. rewrite Hf.
    destruct (schedule race) as [b|b|[]]; try discriminate;
      cbn [first_done first_pending]; rewrite T; cbn [negb]; by rewrite ?T. }
  assert (B : redis_wins race = false → rds_has table user_id = true →
              rds_fault race = false →
              fetch_user_parallel race r table user_id
              = fetch_user_from_rds false table user_id).
  { intros Hw Hhas Hf.
    pose proof (fetch_user_from_rds_Some false table user_id) as T.
    rewrite Hhas in T. simpl in T.
    unfold fetch_user_parallel, redis_wins in *. rewrite Hf.
    destruct (schedule race) as [b|b|[]]; try discriminate;
      cbn [first_done first_pending]; rewrite T; cbn [negb]; by rewrite ?T. }
  split; [exact A | split; [exact B|]].
  intros H1 H2 F1 F2. destruct (redis_wins race) eqn:W.
  - rewrite (A eq_refl H1 F1).
    destruct (fetch_user_from_redis_record _ _ H1) as (d & -> & Hs & Ht).
    exists d. repeat split; auto.
  - rewrite (B eq_refl H2 F2).
    destruct (fetch_user_from_rds_record _ _ H2) as (d & -> & Hs & Ht).
    exists d. split; [reflexivity|]. split; [exact Hs|].
    rewrite Ht. split; [intros [? ?]; discriminate | discriminate].
Qed.

Lemma first_answer_wins_witness :
  fetch_user_parallel (mkRace (RdsFirst true) false false)
    (RedisService.add_user_data false RedisService.empty
       (PInt 5) (PStr "tok") (PStr "ios") (PStr "dev")).2
    [RDSService.mkRow 5 (PStr "tok") (PStr "ios") (PStr "dev")] 5
  = fetch_user_from_rds false
      [RDSService.mkRow 5 (PStr "tok") (PStr "ios") (PStr "dev")] 5.
Proof.
  apply (first_answer_wins (mkRace (RdsFirst true) false false)
           (RedisService.add_user_data false RedisService.empty
              (PInt 5) (PStr "tok") (PStr "ios") (PStr "dev")).2
           [RDSService.mkRow 5 (PStr "tok") (PStr "ios") (PStr "dev")] 5);
    reflexivity.
Defined.

Implicit Types (ids : list Z)
  (task : nat → Z → exc (option (gmap string pyval))).

Lemma omap_missed_sublist (items : list (Z * exc (option (gmap string pyval)))) :
  sublist (omap missed_of items) (fst <$> items).
Proof.
  induction items as [|item items IH]; [constructor|].
  cbn [omap list_omap fmap list_fmap]. unfold missed_of at 1.
  destruct (found_of item); by constructor.
Qed.

Lemma omap_found_sublist (items : list (Z * exc (option (gmap string pyval)))) :
  (∀ item d, item ∈ items → found_of item = Some d →
     record_id d = Some (PInt item.1)) →
  sublist (record_id <$> omap found_of items)
    ((λ item, Some (PInt item.1)) <$> items).
Proof.
  induction items as [|item items IH]; intros Hid; [constructor|].
  assert (IH' := IH (λ it d H, Hid it d (list_elem_of_further _ _ _ H))).
  cbn [omap list_omap fmap list_fmap].
  destruct (found_of item) as [d|] eqn:F; cbn [fmap list_fmap].
  - rewrite (Hid item d (list_elem_of_here _ _) F). by constructor.
  - by constructor.
Qed.

Lemma fst_imap task ids :
  fst <$> imap (λ i id, (id, task i id)) ids = ids.
Proof.
  revert task. induction ids as [|id ids IH]; intros task; [reflexivity|].
  cbn [imap fmap list_fmap]. f_equal. apply (IH (λ i, task (S i))).
Qed.

(** X18. The batch keeps the order of the input: [not_found] lists the
    missing ids in the order they were asked for, and for the races the
    service runs [users] lists the records in the order of their ids in
    the input. *)
Theorem batch_keeps_input_order task ids (b : BatchResult) :
  fetch_multiple_users_parallel task ids = Return b →
  sublist (not_found b) ids
  ∧ (∀ races r table, task = race_task races r table →
       sublist (record_id <$> users b) ((λ id, Some (PInt id)) <$> ids)).
Proof.
  unfold fetch_multiple_users_parallel.
  rewrite combine_imap, classify_fold. simpl. intros [= <-]. simpl.
  split.
  - rewrite <- (fst_imap task ids) at 2. apply omap_missed_sublist.
  - intros races r table ->.
    rewrite <- (imap_ids (race_task races r table) ids).
    apply omap_found_sublist.
    intros item d Hin Hf.
    apply list_elem_of_lookup in Hin as [i Hi].
    rewrite list_lookup_imap in Hi.
    destruct (ids !! i) as [id|]; [|discriminate].
    injection Hi as <-. cbn [fst].
    unfold found_of in Hf. cbn [snd] in Hf.
    destruct (race_task races r table i id) as [e|[d'|]] eqn:E; try discriminate.
    destruct (dict_truthy d'); [|discriminate]. injection Hf as ->.
    eapply race_task_record_id, E.
Qed.

Lemma batch_keeps_input_order_witness :
  sublist [3; 4] [1; 3; 2; 4].
Proof.
  apply (batch_keeps_input_order
           (race_task (λ _, mkRace (BothDone true) false false)
              (RedisService.add_user_data false RedisService.empty
                 (PInt 1) (PStr "tok") (PStr "ios") (PStr "dev")).2
              [RDSService.mkRow 2 (PStr "tok2") (PStr "android") PNone])
           [1; 3; 2; 4]
           (mkBatch
              [ <["source" := PStr "redis"]>
                  (user_record 1 (PStr "tok") (PStr "ios") (PStr "dev"));
                <["source" := PStr "rds"]>
                  (<["user_id" := PInt 2]>
                    (<["platform" := PStr "android"]>
                      (<["device_id" := PStr ""]> ∅))) ]
              2 [3; 4])).
  reflexivity.
Defined.

End RaceOrder.

(** ** The router and the switch endpoints *)

Section RouterFacts.

Import DataSourceService UserRoute.

Implicit Types (s : DataSourceService.t) (env : Env) (w : World).

Lemma run_switches_snoc (requests : list (DataSource * Z)) (q : DataSource * Z) s :
  run_switches (requests ++ [q]) s
  = (switch_to q.1 q.2 (run_switches requests s)).2.
Proof. unfold run_switches. by rewrite fold_left_app. Qed.

(** X19. The router tells the truth about a switch: a [switched] result
    names the source that was active before, the requested one as
    current and the time now stored, and the two differ; the two
    activity flags are never equal; and after any run of switches from
    the initial state the source is RDS only if a switch time is
    recorded, which is the time of one of the requests. *)
Theorem router_reports_its_switches :
  (∀ d (now : datetime) s (p c : DataSource) (t : datetime),
     (switch_to d now s).1 = Switched p c t →
     p = current_source s ∧ c = d ∧ t = now ∧ p ≠ c
     ∧ (switch_to d now s).2 = mk d (Some now))
  ∧ (∀ s, is_lake_active s = negb (is_rds_active s))
  ∧ (∀ requests : list (DataSource * Z),
       (current_source (run_switches requests init) = RDS →
        is_Some (switch_timestamp (run_switches requests init)))
       ∧ (∀ t, switch_timestamp (run_switches requests init) = Some t →
            ∃ d, (d, t) ∈ requests)).
Proof.
  split; [|split].
  - intros d now s p c t. destruct d; simpl;
      unfold DataSourceService.switch_to_lake, DataSourceService.switch_to_rds;
      destruct (current_source s) eqn:E; simpl; intros H;
      inversion H; subst; repeat split; congruence.
  - intros s. unfold is_lake_active, is_rds_active. by destruct (current_source s).
  - intros requests. induction requests as [|q requests IH] using rev_ind.
    + split; [discriminate | discriminate].
    + rewrite run_switches_snoc. destruct IH as [IH1 IH2].
      set (s := run_switches requests init) in *.
      destruct q as [d t0]. simpl.
      destruct d; simpl;
        unfold DataSourceService.switch_to_lake, DataSourceService.switch_to_rds;
        destruct (current_source s) eqn:E; simpl; split;
        try discriminate; eauto.
      * intros H. congruence.
      * intros t Ht. destruct (IH2 t Ht) as [d Hd]. exists d. set_solver.
      * intros t [= <-]. exists LAKE. set_solver.
      * intros t [= <-]. exists RDS. set_solver.
      * intros t Ht. destruct (IH2 t Ht) as [d Hd]. exists d. set_solver.
Qed.

Lemma router_reports_its_switches_witness :
  LAKE = current_source init ∧ RDS = RDS ∧ (1700000000000000 : Z) = 1700000000000000
  ∧ LAKE ≠ RDS
  ∧ (switch_to RDS 1700000000000000 init).2 = mk RDS (Some 1700000000000000).
Proof.
  apply (proj1 router_reports_its_switches RDS 1700000000000000 init).
  reflexivity.
Defined.

(** X20. A switch endpoint answers 500 exactly when a connection it
    needs cannot be opened, and then the router is as it was: for the
    failover store when RDS is neither healthy nor connectable, for the
    lake when Trino is neither healthy nor connectable or the consumer
    is unhealthy and Kafka cannot be connected. No other status than
    200 and 500 is answered. *)
Theorem switch_fails_only_on_connections env w :
  ((∃ res, (switch_to_rds env w).1 = OK res)
   ↔ rds_healthy env || rds_connect_ok env = true)
  ∧ ((∃ res, (switch_to_lake env w).1 = OK res)
     ↔ (trino_healthy env || trino_connect_ok env)
       && (KafkaService.health_check (kafka w) || kafka_connect_ok env) = true)
  ∧ (∀ q, (∃ res, (handle q env w).1 = OK res)
          ∨ (∃ detail, (handle q env w).1 = HTTPException 500 detail
               ∧ datasource (handle q env w).2 = datasource w)).
Proof.
  split; [|split].
  - unfold switch_to_rds.
    destruct (rds_healthy env), (rds_connect_ok env); simpl;
      try (destruct (DataSourceService.switch_to_rds _ _)); simpl;
      split; eauto; try discriminate; intros [? ?]; discriminate.
  - unfold switch_to_lake.
    destruct (initial_sync_returns (scan env) (redis_faults env) (redis w))
      as [report Hrep].
    destruct (SyncService.initial_sync _ _ _) as [[synced r] fs].
    simpl in Hrep. subst synced.
    destruct (DataSourceService.switch_to_lake (now env) (datasource w)) as [res ds].
    unfold KafkaService.connect.
    destruct (trino_healthy env), (trino_connect_ok env),
      (KafkaService.health_check (kafka w)), (kafka_connect_ok env); simpl;
      split; eauto; try discriminate; intros [? ?]; discriminate.
  - intros q. apply handle_outcomes.
Qed.

(** X21. A switch to the failover store stops the consumer first, and a
    failure afterwards does not undo it: whether the endpoint answers
    200 or 500 the consumer is not running, so after a failed switch
    the source is still the lake while nothing consumes the stream. *)
Theorem switch_to_rds_always_stops_consumer env w :
  KafkaService.running (kafka (switch_to_rds env w).2) = false
  ∧ KafkaService.health_check (kafka (switch_to_rds env w).2) = false
  ∧ redis (switch_to_rds env w).2 = redis w
  ∧ (rds_healthy env || rds_connect_ok env = false →
     datasource (switch_to_rds env w).2 = datasource w).
Proof.
  assert (R : KafkaService.running (KafkaService.stop_consuming (kafka w)) = false).
  { unfold KafkaService.stop_consuming. by destruct (KafkaService.running (kafka w)) eqn:E. }
  assert (K : kafka (switch_to_rds env w).2 = KafkaService.stop_consuming (kafka w)
              ∧ redis (switch_to_rds env w).2 = redis w).
  { unfold switch_to_rds.
    destruct (negb (rds_healthy env) && negb (rds_connect_ok env)); [done|].
    by destruct (DataSourceService.switch_to_rds _ _). }
  destruct K as [-> Hr]. split; [exact R|]. split; [|split; [exact Hr|]].
  - unfold KafkaService.health_check. rewrite R. by rewrite andb_false_r.
  - intros H. unfold switch_to_rds. rewrite <- negb_orb, H. reflexivity.
Qed.

Lemma switch_to_rds_always_stops_consumer_witness :
  datasource
    (switch_to_rds (mkEnv 1700000000000000 false false true true None [] true)
       (mkWorld DataSourceService.init
          (KafkaService.mk true true 0 3 None false) RedisService.empty)).2
  = DataSourceService.init.
Proof.
  apply (switch_to_rds_always_stops_consumer
           (mkEnv 1700000000000000 false false true true None [] true)
           (mkWorld DataSourceService.init
              (KafkaService.mk true true 0 3 None false) RedisService.empty)).
  reflexivity.
Defined.

(** X22. A switch to the lake that answers 200 leaves the lake active,
    the consumer service healthy (for a positive maximum of errors) and
    the cache with everything it held; when no Redis call raises (the
    server answers every call, and the row carries fields the client
    accepts or its id was in the cache before) every scanned id is in
    the cache. *)
Theorem switch_to_lake_success env w (res : SwitchResult) :
  (switch_to_lake env w).1 = OK res →
  current_source (datasource (switch_to_lake env w).2) = LAKE
  ∧ keeps_entries (redis w) (redis (switch_to_lake env w).2)
  ∧ (0 < KafkaService.max_consecutive_errors (kafka w) →
     KafkaService.health_check (kafka (switch_to_lake env w).2) = true)
  ∧ (no_faults (redis_faults env) →
     ∀ rows row, scan env = Some rows → row ∈ rows →
       storable_row row ∨ cache_exists (redis w) (row_id row) = true →
       cache_exists (redis (switch_to_lake env w).2) (row_id row) = true).
Proof.
  unfold switch_to_lake.
  destruct (negb (trino_healthy env) && negb (trino_connect_ok env));
    [discriminate|].
  pose proof (initial_sync_redis (scan env) (redis_faults env) (redis w)) as Hr.
  destruct (initial_sync_returns (scan env) (redis_faults env) (redis w))
    as [report Hrep].
  pose proof (sync_users_keeps (TrinoService.fetch_all_users (scan env))
                (SyncService.mkLoop (redis w)
                   (SyncService.next_fault (redis_faults env)).2 0 0)) as Hk.
  assert (Hmem : no_faults (redis_faults env) →
            ∀ rows row, scan env = Some rows → row ∈ rows →
              storable_row row ∨ cache_exists (redis w) (row_id row) = true →
              cache_exists (SyncService.initial_sync (scan env) (redis_faults env)
                              (redis w)).1.2 (row_id row) = true).
  { intros Hnf rows row Hs Hin Hrow. rewrite Hs, initial_sync_redis. simpl.
    rewrite <- get_or_user_id.
    apply (sync_users_members _ (SyncService.mkLoop (redis w) _ 0 0)).
    - simpl. by apply next_fault_no_faults.
    - apply list_elem_of_fmap. eauto.
    - simpl. rewrite get_or_user_id.
      destruct Hrow as [Hst|Hex]; [left; by apply storable_user_of_row | by right]. }
  rewrite <- Hr in Hk.
  destruct (SyncService.initial_sync _ _ _) as [[synced r] fs].
  simpl in Hrep, Hr, Hk, Hmem. subst synced.
  pose proof (switch_to_current LAKE (now env) (datasource w)) as Hc.
  simpl in Hc.
  destruct (DataSourceService.switch_to_lake (now env) (datasource w)) as [res' ds].
  simpl in Hc.
  destruct (KafkaService.health_check (kafka w)) eqn:Hh; cbn [negb].
  - intros _. cbn [fst snd datasource kafka redis].
    split; [exact Hc|]. split; [exact Hk|]. split; [|exact Hmem].
    intros _. unfold KafkaService.start_consuming.
    assert (Hrun : KafkaService.running (kafka w) = true).
    { unfold KafkaService.health_check in Hh.
      by destruct (KafkaService.consumer (kafka w)), (KafkaService.running (kafka w)). }
    rewrite Hrun. exact Hh.
  - unfold KafkaService.connect. destruct (kafka_connect_ok env); [|discriminate].
    intros _. cbn [fst snd datasource kafka redis].
    split; [exact Hc|]. split; [exact Hk|]. split; [|exact Hmem].
    intros Hmax. unfold KafkaService._setup_warning_handler,
      KafkaService.start_consuming, KafkaService.health_check.
    destruct (kafka w) as [c run e m h f]. simpl in *.
    assert (E : (0 <? m) = true) by (by apply Z.ltb_lt).
    destruct run, h; simpl; rewrite E; reflexivity.
Qed.

Lemma switch_to_lake_success_witness :
  current_source
    (datasource
       (switch_to_lake
          (mkEnv 1700000000000000 true true true true
             (Some [(PInt 7, PStr "tok", PStr "ios", PStr "dev")]) [] true)
          (mkWorld (mk RDS (Some 1600000000000000)) KafkaService.init
             RedisService.empty)).2)
  = LAKE.
Proof.
  apply (switch_to_lake_success
           (mkEnv 1700000000000000 true true true true
              (Some [(PInt 7, PStr "tok", PStr "ios", PStr "dev")]) [] true)
           (mkWorld (mk RDS (Some 1600000000000000)) KafkaService.init
              RedisService.empty)
           (Switched RDS LAKE 1700000000000000)).
  reflexivity.
Defined.

End RouterFacts.

(** ** Tokens: issue, check, revoke *)

Section Tokens.

Import Auth.

Variable hash_password : string → string.
Variable verify_password : string → string → bool.
Variable lower : string → string.

Implicit Types (ts : TokenStore) (d : db) (token email password : string).

Lemma nonempty_insert (k v : string) (h : gmap string string) :
  nonempty (<[k := v]> h) = true.
Proof.
  unfold nonempty. destruct (size (<[k := v]> h)) eqn:E; [|reflexivity].
  apply map_size_empty_iff in E. by apply insert_non_empty in E.
Qed.

Lemma hgetall_hset_same d (key : string) (m : gmap string string) :
  hgetall (hset d key m) key = m ∪ hgetall d key.
Proof. unfold hset, hgetall at 1. by rewrite lookup_insert_eq. Qed.

Lemma hgetall_hset_other d (key key' : string) (m : gmap string string) :
  key ≠ key' → hgetall (hset d key m) key' = hgetall d key'.
Proof. intros H. unfold hset, hgetall. by rewrite lookup_insert_ne. Qed.

Lemma split_first_space_two (s a b : string) :
  split_first_space s = [a; b] → s = (a ++ " " ++ b)%string.
Proof.
  revert a. induction s as [|c s IH]; intros a; cbn [split_first_space].
  - discriminate.
  - destruct (Ascii.eqb c " ") eqn:E.
    + apply Ascii.eqb_eq in E. subst c. intros [= <- <-]. reflexivity.
    + destruct (split_first_space s) as [|h t]; [discriminate|].
      intros [= <- ->]. by rewrite (IH h eq_refl).
Qed.

Lemma append_cancel_l (p a b : string) :
  (p ++ a)%string = (p ++ b)%string → a = b.
Proof.
  induction p as [|c p IH]; intros H; [exact H|].
  apply IH. by injection H.
Qed.

Lemma revoked_key_differs (p token : string) :
  (p ++ token)%string ≠ (p ++ "_" ++ token)%string.
Proof.
  intros H. apply append_cancel_l in H.
  change (token = String "_"%char token) in H.
  apply (f_equal String.length) in H. simpl in H. lia.
Qed.

Lemma guard_accepts ts d token :
  nonempty (hgetall d (prefix ts ++ "_" ++ token)%string) = true →
  cog_auth_required false ts d ("cog-api-token " ++ token)%string = Returned true.
Proof.
  intros N. unfold cog_auth_required.
  assert (E : split_first_space ("cog-api-token " ++ token)%string
              = ["cog-api-token"; token]) by reflexivity.
  rewrite E, String.eqb_refl. unfold validate_token. cbn [negb connect prefix].
  by rewrite N.
Qed.

(** X23. The guard of the protected endpoints lets a request through
    exactly when its header is the scheme [cog-api-token], one space,
    and a token whose hash is in the store; it never returns anything
    but [True], and every rejection is a 401 as long as the store
    answers. *)
Theorem guard_accepts_exactly_valid_tokens ts d (authorization : string) :
  (cog_auth_required false ts d authorization = Returned true
   ↔ ∃ token,
       authorization = ("cog-api-token " ++ token)%string
       ∧ nonempty (hgetall d (prefix ts ++ "_" ++ token)%string) = true)
  ∧ (∀ f b, cog_auth_required f ts d authorization = Returned b → b = true)
  ∧ (∀ e, cog_auth_required false ts d authorization = Raised e →
       ∃ detail, e = HTTPException 401 detail).
Proof.
  split; [|split].
  - split.
    + unfold cog_auth_required.
      destruct (split_first_space authorization) as [|scheme [|token [|x l]]] eqn:E;
        try discriminate.
      destruct (String.eqb scheme "cog-api-token") eqn:Es; [|discriminate].
      apply String.eqb_eq in Es. subst scheme.
      apply split_first_space_two in E. unfold validate_token. cbn [connect prefix].
      destruct (nonempty (hgetall d _)) eqn:N; [|discriminate].
      intros _. exists token. split; [exact E | exact N].
    + intros (token & -> & N). by apply guard_accepts.
  - intros f b. unfold cog_auth_required, validate_token.
    repeat case_match; try discriminate; congruence.
  - intros e. unfold cog_auth_required, validate_token.
    repeat case_match; try discriminate; intros [= <-]; eauto.
Qed.

(** X24. A token that [generate_token] returns is accepted: on the
    database it leaves, the guard lets the header with that token
    through, for every store with the same prefix, and the stored hash
    names the email that logged in. *)
Theorem issued_token_is_accepted f1 f2 ts ts' d d' email password token
    (now : Q) (t : string) :
  generate_token verify_password lower f1 f2 ts d email password token now
  = (Returned t, ts', d') →
  t = token
  ∧ hgetall d' (prefix ts ++ "_" ++ t)%string !! "email" = Some email
  ∧ ∀ ts2, prefix ts2 = prefix ts →
      cog_auth_required false ts2 d' ("cog-api-token " ++ t)%string = Returned true.
Proof.
  unfold generate_token. cbn [connect prefix user_prefix].
  destruct f1; [discriminate|].
  destruct (negb (nonempty (hgetall d _))); [discriminate|].
  destruct (negb (verify_password _ _)); [discriminate|].
  destruct f2; [discriminate|].
  intros [= <- <- <-]. split; [reflexivity|].
  split.
  - rewrite hgetall_hset_same. apply lookup_union_Some_l. reflexivity.
  - intros ts2 Hp. apply guard_accepts.
    rewrite Hp, hgetall_hset_same, <- insert_union_l. apply nonempty_insert.
Qed.

(** X25. Revoking a token does not invalidate it. The endpoint builds
    a store that was never connected, so it answers 500 and leaves the
    database as it is; and on a connected store the key deleted lacks
    the underscore of the key a token is stored under, so the token
    named validates as before. *)
Theorem revoke_does_not_invalidate f ts d token :
  revoke_route f d token
  = (Raised (HTTPException 500 "Token revocation failed"), d)
  ∧ ∀ ts2, prefix ts2 = prefix ts →
      validate_token false ts2 (revoke_token f ts d token).2 token
      = validate_token false ts2 d token.
Proof.
  split; [reflexivity|].
  intros ts2 Hp. unfold validate_token, revoke_token.
  destruct (negb (redis ts)); [reflexivity|]. destruct f; [reflexivity|].
  cbn [snd connect prefix]. unfold hgetall.
  rewrite lookup_delete_ne; [reflexivity|].
  rewrite Hp. apply revoked_key_differs.
Qed.

(** X26. Registration and login reject what they should and change
    nothing when they do: registering an email that has a hash answers
    400, logging in with an unknown email or with a password the stored
    hash does not verify answers 401, and in each case the database is
    as it was. *)
Theorem auth_rejections_change_nothing f2 d email password token (now : Q) :
  (nonempty (hgetall d ("user:" ++ "_" ++ lower email)%string) = true →
   register_route hash_password lower false f2 d email password
   = (Raised (HTTPException 400 "User already exists"), d))
  ∧ (nonempty (hgetall d ("user:" ++ "_" ++ lower email)%string) = false →
     login_route verify_password lower false f2 d email password token now
     = (Raised (HTTPException 401 "User not found"), d))
  ∧ (nonempty (hgetall d ("user:" ++ "_" ++ lower email)%string) = true →
     verify_password password
       (default "" (hgetall d ("user:" ++ "_" ++ lower email)%string !! "password"))
     = false →
     login_route verify_password lower false f2 d email password token now
     = (Raised (HTTPException 401 "Invalid credentials"), d)).
Proof.
  split; [|split].
  - intros H. unfold register_route, register_user.
    cbn [connect new_store user_prefix]. by rewrite H.
  - intros H. unfold login_route, generate_token.
    cbn [connect new_store user_prefix]. by rewrite H.
  - intros H V. unfold login_route, generate_token.
    cbn [connect new_store user_prefix]. by rewrite H, V.
Qed.

(** X27. Register, log in, call: for helpers where [verify_password]
    accepts the hash [hash_password] made of the same password, a
    registration that succeeds is followed by a login that returns the
    token drawn, a second registration of the email is refused, and the
    guard accepts the token. *)
Theorem register_login_authorize d d1 email password token (now : Q)
    (res : gmap string string) :
  verify_password password (hash_password password) = true →
  register_route hash_password lower false false d email password
  = (Returned res, d1) →
  (∀ password2,
     register_route hash_password lower false false d1 email password2
     = (Raised (HTTPException 400 "User already exists"), d1))
  ∧ ∃ d2,
      login_route verify_password lower false false d1 email password token now
      = (Returned token, d2)
      ∧ cog_auth_required false new_store d2 ("cog-api-token " ++ token)%string
        = Returned true.
Proof.
  intros V. unfold register_route, register_user.
  cbn [connect new_store user_prefix].
  destruct (nonempty (hgetall d _)) eqn:N; [discriminate|].
  intros [= <- <-].
  set (key := ("user:" ++ "_" ++ lower email)%string) in *.
  assert (H1 : hgetall (hset d key (<["email" := email]>
                 (<["password" := hash_password password]> ∅))) key
               = <["email" := email]> (<["password" := hash_password password]> ∅)
                 ∪ hgetall d key) by apply hgetall_hset_same.
  split.
  - intros password2. rewrite H1, <- insert_union_l, nonempty_insert. reflexivity.
  - unfold login_route, generate_token. cbn [connect new_store user_prefix prefix].
    fold key. rewrite H1.
    assert (N1 : nonempty (<["email" := email]>
                   (<["password" := hash_password password]> ∅) ∪ hgetall d key)
                 = true) by (rewrite <- insert_union_l; apply nonempty_insert).
    assert (P : (<["email" := email]> (<["password" := hash_password password]> ∅)
                 ∪ hgetall d key) !! "password" = Some (hash_password password)).
    { apply lookup_union_Some_l. reflexivity. }
    rewrite N1, P. unfold default. cbn [from_option id negb].
    rewrite V. cbn [negb]. eexists. split; [reflexivity|].
    apply guard_accepts. cbn [new_store prefix].
    rewrite hgetall_hset_same, <- insert_union_l. apply nonempty_insert.
Qed.

End Tokens.

Lemma guard_accepts_exactly_valid_tokens_witness :
  Auth.cog_auth_required false Auth.new_store
    (Auth.hset ∅ "api_token:_abc" (<["email" := "a@b.c"]> ∅))
    "cog-api-token abc"
  = Auth.Returned true.
Proof.
  apply (proj1 (guard_accepts_exactly_valid_tokens Auth.new_store
                  (Auth.hset ∅ "api_token:_abc" (<["email" := "a@b.c"]> ∅))
                  "cog-api-token abc")).
  exists "abc". split; reflexivity.
Defined.

Lemma issued_token_is_accepted_witness :
  Auth.cog_auth_required false Auth.new_store
    (Auth.hset
       (Auth.hset ∅ "user:_a@b.c"
          (<["email" := "a@b.c"]> (<["password" := "pw"]> ∅)))
       "api_token:_tok123"
       (<["email" := "a@b.c"]> (<["created_at" := "1700000000"]> ∅)))
    "cog-api-token tok123"
  = Auth.Returned true.
Proof.
  apply (issued_token_is_accepted String.eqb (λ x, x) false false
           Auth.new_store (Auth.connect Auth.new_store)
           (Auth.hset ∅ "user:_a@b.c"
              (<["email" := "a@b.c"]> (<["password" := "pw"]> ∅)))
           (Auth.hset
              (Auth.hset ∅ "user:_a@b.c"
                 (<["email" := "a@b.c"]> (<["password" := "pw"]> ∅)))
              "api_token:_tok123"
              (<["email" := "a@b.c"]> (<["created_at" := "1700000000"]> ∅)))
           "a@b.c" "pw" "tok123" (1700000000 # 1) "tok123");
    reflexivity.
Defined.

Lemma revoke_does_not_invalidate_witness :
  Auth.validate_token false Auth.new_store
    (Auth.revoke_token false (Auth.connect Auth.new_store)
       (Auth.hset ∅ "api_token:_abc" (<["email" := "a@b.c"]> ∅)) "abc").2 "abc"
  = Auth.validate_token false Auth.new_store
      (Auth.hset ∅ "api_token:_abc" (<["email" := "a@b.c"]> ∅)) "abc".
Proof.
  apply (revoke_does_not_invalidate false (Auth.connect Auth.new_store)
           (Auth.hset ∅ "api_token:_abc" (<["email" := "a@b.c"]> ∅)) "abc").
  reflexivity.
Defined.

Lemma auth_rejections_change_nothing_witness :
  Auth.login_route String.eqb (λ x, x) false false
    (Auth.hset ∅ "user:_a@b.c" (<["email" := "a@b.c"]> (<["password" := "pw"]> ∅)))
    "a@b.c" "wrong" "tok" (1700000000 # 1)
  = (Auth.Raised (Auth.HTTPException 401 "Invalid credentials"),
     Auth.hset ∅ "user:_a@b.c" (<["email" := "a@b.c"]> (<["password" := "pw"]> ∅))).
Proof.
  apply (auth_rejections_change_nothing (λ x, x) String.eqb (λ x, x) false
           (Auth.hset ∅ "user:_a@b.c"
              (<["email" := "a@b.c"]> (<["password" := "pw"]> ∅)))
           "a@b.c" "wrong" "tok" (1700000000 # 1));
    reflexivity.
Defined.

Lemma register_login_authorize_witness :
  ∃ d2,
    Auth.login_route String.eqb (λ x, x) false false
      (Auth.hset ∅ "user:_a@b.c" (<["email" := "a@b.c"]> (<["password" := "pw"]> ∅)))
      "a@b.c" "pw" "tok123" (1700000000 # 1)
    = (Auth.Returned "tok123", d2)
    ∧ Auth.cog_auth_required false Auth.new_store d2 "cog-api-token tok123"
      = Auth.Returned true.
Proof.
  apply (register_login_authorize (λ x, x) String.eqb (λ x, x) ∅
           (Auth.hset ∅ "user:_a@b.c"
              (<["email" := "a@b.c"]> (<["password" := "pw"]> ∅)))
           "a@b.c" "pw" "tok123" (1700000000 # 1)
           (<["email" := "a@b.c"]>
              (<["message" := "User registered successfully"]> ∅)));
    reflexivity.
Defined.

(** ** The existence endpoint *)

Section CheckUserFacts.

Import CheckUser.

Variable strip : string → string.
Variable int : string → option Z.

Implicit Types (fs : list bool) (r : RedisService.t) (user_ids : string).

Lemma split_comma_nonempty (s : string) : split_comma s ≠ [].
Proof.
  destruct s as [|c s]; cbn [split_comma]; [discriminate|].
  destruct (Ascii.eqb c ","); [discriminate|].
  by destruct (split_comma s).
Qed.

Lemma concat_cons_char (c : ascii) (h : string) (t : list string) :
  String.concat "," (String c h :: t) = String c (String.concat "," (h :: t)).
Proof. destruct t; reflexivity. Qed.

Lemma concat_cons_empty (h : string) (t : list string) :
  String.concat "," ("" :: h :: t) = String "," (String.concat "," (h :: t)).
Proof. reflexivity. Qed.

(** X28. Splitting at the commas loses nothing: joining the parts with
    commas gives the input back, there is always at least one part, and
    no part contains a comma. *)
Theorem split_comma_round_trip (s : string) :
  String.concat "," (split_comma s) = s
  ∧ split_comma s ≠ []
  ∧ ∀ part, part ∈ split_comma s → str_contains "," part = false.
Proof.
  split; [|split; [apply split_comma_nonempty|]].
  - induction s as [|c s IH]; [reflexivity|].
    cbn [split_comma]. destruct (Ascii.eqb c ",") eqn:E.
    + apply Ascii.eqb_eq in E. subst c.
      pose proof (split_comma_nonempty s) as Hne.
      destruct (split_comma s) as [|h t]; [done|].
      by rewrite concat_cons_empty, IH.
    + pose proof (split_comma_nonempty s) as Hne.
      destruct (split_comma s) as [|h t]; [done|].
      by rewrite concat_cons_char, IH.
  - induction s as [|c s IH]; intros part Hin.
    + apply list_elem_of_singleton in Hin. by subst.
    + cbn [split_comma] in Hin. destruct (Ascii.eqb c ",") eqn:E.
      * apply elem_of_cons in Hin as [->|Hin]; [reflexivity | by apply IH].
      * pose proof (split_comma_nonempty s) as Hne.
        destruct (split_comma s) as [|h t]; [done|].
        apply elem_of_cons in Hin as [->|Hin].
        -- assert (Hh : str_contains "," h = false) by (apply IH; left).
           unfold str_contains in *. cbn [String.index].
           cbn [String.prefix]. destruct (ascii_dec "," c) as [<-|Hc];
             [discriminate|].
           destruct (String.index 0 "," h); [discriminate|reflexivity].
        -- apply IH. by right.
Qed.

Lemma check_each_ok fs r (parts : list string) (acc results : list (Z * bool)) :
  check_each int fs r parts acc = OK results →
  ∃ tail,
    results = acc ++ tail
    ∧ Forall2 (λ part res, part ≠ "" ∧ int part = Some res.1) parts tail
    ∧ (no_faults fs → Forall (λ res, res.2 = cache_exists r (PInt res.1)) tail).
Proof.
  revert fs acc. induction parts as [|uid parts IH]; intros fs acc;
    cbn [check_each].
  - intros [= <-]. exists []. rewrite app_nil_r. repeat split; constructor.
  - destruct (String.eqb uid "") eqn:E; [discriminate|].
    apply String.eqb_neq in E.
    destruct (int uid) as [n|] eqn:En; [|discriminate].
    destruct (SyncService.next_fault fs) as [f fs'] eqn:Ef.
    intros H. destruct (IH _ _ H) as (tail & -> & HF & HQ).
    exists ((n, RedisService.user_exists f r (PInt n)) :: tail).
    split; [by rewrite <- app_assoc|]. split.
    + constructor; [split; [exact E | exact En] | exact HF].
    + intros Hnf. destruct (next_fault_no_faults _ Hnf) as [E1 Hnf'].
      rewrite Ef in E1, Hnf'. simpl in E1, Hnf'. subst f.
      constructor; [reflexivity | by apply HQ].
Qed.

Lemma check_each_status fs r (parts : list string) (acc : list (Z * bool))
    (code : Z) (detail : string) :
  check_each int fs r parts acc = HTTPException code detail → code = 400.
Proof.
  revert fs acc. induction parts as [|uid parts IH]; intros fs acc;
    cbn [check_each]; [discriminate|].
  destruct (String.eqb uid ""); [by intros [= <- _]|].
  destruct (int uid); [|by intros [= <- _]].
  destruct (SyncService.next_fault fs). apply IH.
Qed.

(** X29. The existence endpoint answers for all ids or for none: a 200
    carries one result for each comma-separated part, in the order of
    the input, each with the id the stripped part parses to and, when
    no Redis call raises, whether that id is in the cache; any part
    that is empty or not numeric makes the whole request a 400, and no
    other status is answered. *)
Theorem check_user_answers_in_order fs r user_ids :
  (∀ results,
     check_user_exists_get strip int fs r user_ids = OK results →
     Forall2 (λ part res, strip part ≠ "" ∧ int (strip part) = Some res.1)
       (split_comma user_ids) results
     ∧ (no_faults fs →
        Forall (λ res, res.2 = cache_exists r (PInt res.1)) results))
  ∧ (∀ code detail,
       check_user_exists_get strip int fs r user_ids = HTTPException code detail →
       code = 400)
  ∧ (∀ part, part ∈ split_comma user_ids →
       strip part = "" ∨ int (strip part) = None →
       ∃ detail,
         check_user_exists_get strip int fs r user_ids = HTTPException 400 detail).
Proof.
  split; [|split].
  - intros results. unfold check_user_exists_get.
    destruct (String.eqb user_ids "" || String.eqb (strip user_ids) "");
      [discriminate|].
    intros H. apply check_each_ok in H as (tail & -> & HF & HQ).
    split; [|exact HQ]. apply Forall2_fmap_l in HF. exact HF.
  - intros code detail. unfold check_user_exists_get.
    destruct (String.eqb user_ids "" || String.eqb (strip user_ids) "");
      [by intros [= <- _] | apply check_each_status].
  - intros part Hin Hbad.
    destruct (check_user_exists_get strip int fs r user_ids) as [results|code detail]
      eqn:E.
    + exfalso. unfold check_user_exists_get in E.
      destruct (String.eqb user_ids "" || String.eqb (strip user_ids) "");
        [discriminate|].
      apply check_each_ok in E as (tail & _ & HF & _).
      apply Forall2_fmap_l in HF.
      apply list_elem_of_lookup in Hin as [i Hi].
      destruct (Forall2_lookup_l _ _ _ _ _ HF Hi) as (res & _ & Hne & Hint).
      destruct Hbad; congruence.
    + exists detail. f_equal.
      unfold check_user_exists_get in E.
      destruct (String.eqb user_ids "" || String.eqb (strip user_ids) "");
        [by injection E | by apply check_each_status in E].
Qed.

End CheckUserFacts.

Lemma check_user_answers_in_order_witness :
  ∃ detail,
    CheckUser.check_user_exists_get (λ s, s)
      (λ s, if String.eqb s "7" then Some 7 else None) [] RedisService.empty
      "7,abc"
    = CheckUser.HTTPException 400 detail.
Proof.
  apply (check_user_answers_in_order (λ s, s)
           (λ s, if String.eqb s "7" then Some 7 else None) []
           RedisService.empty "7,abc") with (part := "abc").
  - right. left.
  - right. reflexivity.
Defined.

Lemma split_comma_round_trip_witness :
  str_contains "," "123456" = false.
Proof.
  apply (proj2 (proj2 (split_comma_round_trip "116585,123456,789012"))).
  right. left.
Defined.
